(** * AdvancedSystems.cpp: enemy decisions, combat math, skills, missions

    A shallow embedding of [Assets/Scripts/Advanced/AdvancedSystems.cpp].
    The C++ type [float] is IEEE 754 binary32; it is modelled by the
    Standard Library's [spec_float] instantiated at 24 bits of precision and
    exponent bound 128, so that every arithmetic operation rounds to nearest
    (ties to even) and every comparison with a NaN is false, as on the
    machine.  The C++ type [int] is modelled by [Z]. *)

From Stdlib Require Import ZArith Bool Lia String.
From Stdlib Require Import Floats.SpecFloat.
From stdpp Require Import base list.

(** ** binary32 arithmetic *)

Module Float32.

Definition prec : Z := 24.
Definition emax : Z := 128.

Definition float : Type := spec_float.

Definition fadd : float -> float -> float := SFadd prec emax.
Definition fsub : float -> float -> float := SFsub prec emax.
Definition fmul : float -> float -> float := SFmul prec emax.
Definition fdiv : float -> float -> float := SFdiv prec emax.

(** [a < b], [a <= b], [a == b]; [a > b] is [flt b a] and [a >= b] is
    [fle b a]. *)
Definition flt : float -> float -> bool := SFltb.
Definition fle : float -> float -> bool := SFleb.
Definition feq : float -> float -> bool := SFeqb.

(** Conversion of an [int] to [float] (rounds when |n| > 2^24). *)
Definition of_int (n : Z) : float := binary_normalize prec emax n 0 false.

(** A value of the machine type: mantissa and exponent in range. *)
Definition is_float (x : float) : Prop := valid_binary prec emax x = true.

Definition is_nan (x : float) : bool :=
  match x with S754_nan => true | _ => false end.

(** [std::max(a, b)] is [(a < b) ? b : a]; [std::min(a, b)] is
    [(b < a) ? b : a]. *)
Definition std_max (a b : float) : float := if flt a b then b else a.
Definition std_min (a b : float) : float := if flt b a then b else a.

(** [signed s x]: [x] carries the sign [s], or is not a number. *)
Definition signed (s : bool) (x : float) : Prop :=
  match x with
  | S754_zero s' | S754_infinity s' | S754_finite s' _ _ => s' = s
  | S754_nan => True
  end.

(** The literals of the source file. *)
Definition lit_0 : float := S754_zero false.                        (* 0.0f, 0 *)
Definition lit_1 : float := S754_finite false 8388608 (-23).         (* 1.0f *)
Definition lit_0_2 : float := S754_finite false 13421773 (-26).      (* 0.2f *)
Definition lit_0_01 : float := S754_finite false 10737418 (-30).     (* 0.01f *)
Definition lit_1_5 : float := S754_finite false 12582912 (-23).      (* 1.5f *)
Definition lit_0_5 : float := S754_finite false 8388608 (-24).       (* 0.5f *)
Definition lit_0_1 : float := S754_finite false 13421773 (-27).      (* 0.1f *)
Definition lit_0_95 : float := S754_finite false 15938355 (-24).     (* 0.95f *)
Definition lit_100 : float := S754_finite false 13107200 (-17).      (* 100.0f *)
Definition lit_15 : float := S754_finite false 15728640 (-20).       (* 15.0f *)
Definition lit_3 : float := S754_finite false 12582912 (-22).        (* 3.0f *)

(** [std::sqrt] on [float]. *)
Definition fsqrt : float -> float := SFsqrt prec emax.

(** A number: neither an infinity nor a NaN. *)
Definition is_finite (x : float) : bool :=
  match x with S754_zero _ | S754_finite _ _ _ => true | _ => false end.

(** The integral part of a number, towards zero. *)
Definition truncate (x : float) : option Z :=
  match x with
  | S754_zero _ => Some 0%Z
  | S754_finite s m e => Some (cond_Zopp s (Z.shiftl (Zpos m) e))
  | S754_infinity _ | S754_nan => None
  end.

Definition INT_MIN : Z := -2147483648.
Definition INT_MAX : Z := 2147483647.

(** [static_cast<int>(x)]: the truncated value when it fits [int]; [None]
    stands for the cases the language leaves undefined (NaN, infinities and
    values out of range). *)
Definition to_int (x : float) : option Z :=
  match truncate x with
  | Some v => if ((INT_MIN <=? v) && (v <=? INT_MAX))%Z then Some v else None
  | None => None
  end.

End Float32.

Import Float32.

(** ** class EnemyAIBehavior *)

Module EnemyAIBehavior.

Record t : Type := mk {
  detectionRange : float;
  attackRange : float;
  currentHealth : float;
  maxHealth : float
}.

(** [EnemyAIBehavior(float maxHp)] *)
Definition new (maxHp : float) : t :=
  {| detectionRange := lit_15; attackRange := lit_3;
     currentHealth := maxHp; maxHealth := maxHp |}.

Inductive AIState : Type := IDLE | PATROL | CHASE | ATTACK | STUNNED | DEAD.

Definition DecideAction (self : t) (distanceToPlayer playerHealth : float)
    (hasLineOfSight : bool) : AIState :=
  if fle (currentHealth self) lit_0 then DEAD
  else if flt (currentHealth self) (fmul (maxHealth self) lit_0_2) then STUNNED
  else if flt distanceToPlayer (attackRange self) && hasLineOfSight then ATTACK
  else if flt distanceToPlayer (detectionRange self) && hasLineOfSight then CHASE
  else PATROL.

Definition CalculateDamage (self : t) (baseAttackPower targetDefense : float)
    (isCritical : bool) : float :=
  let damage := fmul baseAttackPower (fsub lit_1 (fmul targetDefense lit_0_01)) in
  let damage := if isCritical then fmul damage lit_1_5 else damage in
  std_max lit_1 damage.

Definition TakeDamage (self : t) (damageAmount : float) : t :=
  {| detectionRange := detectionRange self; attackRange := attackRange self;
     currentHealth := std_max lit_0 (fsub (currentHealth self) damageAmount);
     maxHealth := maxHealth self |}.

Definition Heal (self : t) (healAmount : float) : t :=
  {| detectionRange := detectionRange self; attackRange := attackRange self;
     currentHealth := std_min (maxHealth self) (fadd (currentHealth self) healAmount);
     maxHealth := maxHealth self |}.

Definition GetHealthPercent (self : t) : float :=
  fdiv (currentHealth self) (maxHealth self).

(** One iteration of the loop of [FindPath] for each of the [n] values of
    [i] from [i] on: the two coordinates pushed at each. *)
Fixpoint FindPath_loop (n : nat) (i steps : Z) (startX startY dx dy : float)
    : list float :=
  match n with
  | O => []
  | S n' =>
      let t := if (steps >? 0)%Z then fdiv (of_int i) (of_int steps) else lit_0 in
      fadd startX (fmul dx t) :: fadd startY (fmul dy t)
        :: FindPath_loop n' (i + 1) steps startX startY dx dy
  end.

(** [FindPath]; [None] when the conversion of the step count to [int] is
    undefined.  The loop runs for [i = 0 .. steps]. *)
Definition FindPath (self : t) (startX startY endX endY : float)
    : option (list float) :=
  let dx := fsub endX startX in
  let dy := fsub endY startY in
  let distance := fsqrt (fadd (fmul dx dx) (fmul dy dy)) in
  let stepSize := lit_0_5 in
  match to_int (fdiv distance stepSize) with
  | Some steps =>
      Some (FindPath_loop (Z.to_nat (steps + 1)) 0 steps startX startY dx dy)
  | None => None
  end.

(** The public interface of the class: a call of a member function with its
    arguments.  [FindPath] works on locals only and is represented by its
    call alone. *)
Inductive Call : Type :=
  | CallDecideAction (distanceToPlayer playerHealth : float) (hasLineOfSight : bool)
  | CallFindPath (startX startY endX endY : float)
  | CallCalculateDamage (baseAttackPower targetDefense : float) (isCritical : bool)
  | CallTakeDamage (damageAmount : float)
  | CallHeal (healAmount : float)
  | CallGetHealthPercent.

(** The object after a call: only [TakeDamage] and [Heal] assign to a member. *)
Definition after (self : t) (c : Call) : t :=
  match c with
  | CallTakeDamage damageAmount => TakeDamage self damageAmount
  | CallHeal healAmount => Heal self healAmount
  | CallDecideAction _ _ _ | CallFindPath _ _ _ _
  | CallCalculateDamage _ _ _ | CallGetHealthPercent => self
  end.

(** The states an instance can be in: constructed, then any calls. *)
Inductive reachable : t -> Prop :=
  | reachable_new (maxHp : float) : reachable (new maxHp)
  | reachable_call (self : t) (c : Call) :
      reachable self -> reachable (after self c).

(** A call whose amount is a non-negative number of the machine type. *)
Definition call_ok (c : Call) : bool :=
  match c with
  | CallTakeDamage amount | CallHeal amount =>
      valid_binary prec emax amount && fle lit_0 amount
  | _ => true
  end.

(** The health invariant of the data model. *)
Definition health_ok (self : t) : bool :=
  fle lit_0 (currentHealth self) && fle (currentHealth self) (maxHealth self).

End EnemyAIBehavior.

(** ** class CombatSystem *)

Module CombatSystem.

Record CombatResult : Type := mkCombatResult {
  damageDealt : float;
  isHit : bool;
  isCritical : bool;
  cooldownRemaining : float
}.

(** The local [hitChance] of [CalculateHit], after the clamping line. *)
Definition hitChance (attackAccuracy targetEvasion : float) : float :=
  let hitChance := fdiv (fsub attackAccuracy targetEvasion) lit_100 in
  std_max lit_0_1 (std_min lit_0_95 hitChance).

(** The value compared with [hitChance]: [(rand() % 100) / 100.0f], for
    [rand_value] the integer that [rand()] returned. *)
Definition draw (rand_value : Z) : float :=
  fdiv (of_int (Z.rem rand_value 100)) lit_100.

Definition CalculateHit (rand_value : Z) (attackAccuracy targetEvasion : float)
    : bool :=
  flt (draw rand_value) (hitChance attackAccuracy targetEvasion).

Definition CalculateComboMultiplier (comboCount : Z) : float :=
  fadd lit_1 (fmul (of_int comboCount) lit_0_1).

Inductive Element : Type := FIRE | ICE | LIGHTNING | NULL_ELEMENT.

#[global] Instance Element_eq_dec : EqDecision Element.
Proof. solve_decision. Defined.

(** The enumerators' values, used as array indices. *)
Definition Element_index (e : Element) : nat :=
  match e with FIRE => 0 | ICE => 1 | LIGHTNING => 2 | NULL_ELEMENT => 3 end.

Definition matrix : list (list float) :=
  [ [lit_1; lit_1_5; lit_0_5];     (* Fire *)
    [lit_0_5; lit_1; lit_1_5];     (* Ice *)
    [lit_1_5; lit_0_5; lit_1] ].   (* Lightning *)

(** [m[i][j]] on a C array: [None] stands for an access outside the array,
    which the language leaves undefined. *)
Definition index2 (m : list (list float)) (i j : nat) : option float :=
  match m !! i with
  | Some row => row !! j
  | None => None
  end.

Definition GetElementalMultiplier (attackElement targetElement : Element)
    : option float :=
  if decide (attackElement = NULL_ELEMENT) then Some lit_1
  else index2 matrix (Element_index attackElement) (Element_index targetElement).

End CombatSystem.

(** ** class SkillSystem *)

Module SkillSystem.

Record Skill : Type := mkSkill {
  skillId : Z;
  cooldown : float;
  cooldownRemaining : float;
  manaCost : float;
  damage : float;
  isActive : bool
}.

Record t : Type := mk {
  skills : list Skill;
  currentMana : float;
  maxMana : float
}.

(** [SkillSystem()] *)
Definition new : t :=
  {| skills := []; currentMana := lit_100; maxMana := lit_100 |}.

(** The loop of [CanUseSkill] over the skills not yet visited. *)
Fixpoint CanUseSkill_loop (self : t) (rest : list Skill) (id : Z) : bool :=
  match rest with
  | [] => false
  | skill :: rest' =>
      if (skillId skill =? id)%Z
      then fle (cooldownRemaining skill) lit_0 && fle (manaCost skill) (currentMana self)
      else CanUseSkill_loop self rest' id
  end.

Definition CanUseSkill (self : t) (id : Z) : bool :=
  CanUseSkill_loop self (skills self) id.

Definition reset_cooldown (skill : Skill) : Skill :=
  {| skillId := skillId skill; cooldown := cooldown skill;
     cooldownRemaining := cooldown skill; manaCost := manaCost skill;
     damage := damage skill; isActive := isActive skill |}.

(** The loop of [UseSkill]: [rest] are the skills from position [i] on.  The
    object is unchanged until the iteration that commits, which is also the
    last one ([break]). *)
Fixpoint UseSkill_loop (self : t) (i : nat) (rest : list Skill) (id : Z) : t :=
  match rest with
  | [] => self
  | skill :: rest' =>
      if (skillId skill =? id)%Z && CanUseSkill self id
      then {| skills := <[i := reset_cooldown skill]> (skills self);
              currentMana := fsub (currentMana self) (manaCost skill);
              maxMana := maxMana self |}
      else UseSkill_loop self (S i) rest' id
  end.

Definition UseSkill (self : t) (id : Z) : t :=
  UseSkill_loop self 0 (skills self) id.

Definition tick_cooldown (deltaTime : float) (skill : Skill) : Skill :=
  {| skillId := skillId skill; cooldown := cooldown skill;
     cooldownRemaining := std_max lit_0 (fsub (cooldownRemaining skill) deltaTime);
     manaCost := manaCost skill; damage := damage skill;
     isActive := isActive skill |}.

Definition UpdateCooldowns (self : t) (deltaTime : float) : t :=
  {| skills := map (tick_cooldown deltaTime) (skills self);
     currentMana := currentMana self; maxMana := maxMana self |}.

Definition RegenerateMana (self : t) (regenRate deltaTime : float) : t :=
  {| skills := skills self;
     currentMana := std_min (maxMana self)
                      (fadd (currentMana self) (fmul regenRate deltaTime));
     maxMana := maxMana self |}.

(** The data-model invariants of the ledger, as decidable checks. *)
Definition skill_ok (skill : Skill) : bool :=
  fle lit_0 (cooldownRemaining skill) &&
  fle (cooldownRemaining skill) (cooldown skill).

Definition mana_ok (self : t) : bool :=
  fle lit_0 (currentMana self) && fle (currentMana self) (maxMana self).

Definition invariant (self : t) : bool :=
  forallb skill_ok (skills self) && mana_ok self.

(** Every number stored in the ledger is a value of the machine type. *)
Definition skill_wf (skill : Skill) : bool :=
  valid_binary prec emax (cooldown skill) &&
  valid_binary prec emax (cooldownRemaining skill) &&
  valid_binary prec emax (manaCost skill).

Definition well_formed (self : t) : bool :=
  forallb skill_wf (skills self) &&
  valid_binary prec emax (currentMana self) &&
  valid_binary prec emax (maxMana self).

(** The per-tick calls of the host, and a run of them. *)
Inductive Tick : Type :=
  | TickCooldowns (deltaTime : float)
  | TickMana (regenRate deltaTime : float).

Definition tick_ok (k : Tick) : bool :=
  match k with
  | TickCooldowns deltaTime =>
      valid_binary prec emax deltaTime && fle lit_0 deltaTime
  | TickMana regenRate deltaTime =>
      valid_binary prec emax regenRate && valid_binary prec emax deltaTime &&
      fle lit_0 regenRate && fle lit_0 deltaTime
  end.

Definition tick (self : t) (k : Tick) : t :=
  match k with
  | TickCooldowns deltaTime => UpdateCooldowns self deltaTime
  | TickMana regenRate deltaTime => RegenerateMana self regenRate deltaTime
  end.

Definition run (self : t) (ks : list Tick) : t := foldl tick self ks.

(** The first skill of the ledger with the given id, as [CanUseSkill] and
    [UseSkill] find it, with its position. *)
Fixpoint first_with_id (i : nat) (l : list Skill) (id : Z) : option (nat * Skill) :=
  match l with
  | [] => None
  | skill :: l' =>
      if (skillId skill =? id)%Z then Some (i, skill)
      else first_with_id (S i) l' id
  end.

(** The object after a successful [UseSkill] that found [skill] at
    position [i]. *)
Definition committed (self : t) (i : nat) (skill : Skill) : t :=
  {| skills := <[i := reset_cooldown skill]> (skills self);
     currentMana := fsub (currentMana self) (manaCost skill);
     maxMana := maxMana self |}.

Definition usable (self : t) (skill : Skill) : bool :=
  fle (cooldownRemaining skill) lit_0 && fle (manaCost skill) (currentMana self).

(** What no member function writes: everything but cooldownRemaining. *)
Definition static_part (skill : Skill) : Z * float * float * float * bool :=
  (skillId skill, cooldown skill, manaCost skill, damage skill, isActive skill).

(** The public interface of the class. *)
Inductive Call : Type :=
  | CallCanUseSkill (id : Z)
  | CallUseSkill (id : Z)
  | CallUpdateCooldowns (deltaTime : float)
  | CallRegenerateMana (regenRate deltaTime : float).

Definition after (self : t) (c : Call) : t :=
  match c with
  | CallCanUseSkill _ => self
  | CallUseSkill id => UseSkill self id
  | CallUpdateCooldowns deltaTime => UpdateCooldowns self deltaTime
  | CallRegenerateMana regenRate deltaTime =>
      RegenerateMana self regenRate deltaTime
  end.

Inductive reachable : t -> Prop :=
  | reachable_new : reachable new
  | reachable_call (self : t) (c : Call) :
      reachable self -> reachable (after self c).

(** Calls with non-negative arguments of the machine type. *)
Definition call_ok (c : Call) : bool :=
  match c with
  | CallCanUseSkill _ | CallUseSkill _ => true
  | CallUpdateCooldowns deltaTime => tick_ok (TickCooldowns deltaTime)
  | CallRegenerateMana regenRate deltaTime =>
      tick_ok (TickMana regenRate deltaTime)
  end.

(** Every mana cost is a non-negative number. *)
Definition cost_ok (skill : Skill) : bool :=
  fle lit_0 (manaCost skill) && is_finite (manaCost skill).

End SkillSystem.

(** ** class MissionSystem *)

Module MissionSystem.

Record Mission : Type := mkMission {
  missionId : Z;
  missionName : String.string;
  completionPercentage : float;
  targetCount : Z;
  targetsEliminated : Z;
  isComplete : bool;
  timeLimit : float
}.

Definition IsMissionComplete (mission : Mission) : bool :=
  (targetsEliminated mission >=? targetCount mission)%Z.

Definition GetCompletionPercentage (mission : Mission) : float :=
  if (targetCount mission =? 0)%Z then lit_0
  else fmul (fdiv (of_int (targetsEliminated mission))
                  (of_int (targetCount mission))) lit_100.

(** [CalculateReward]; [None] when the final conversion to [int] is
    undefined. *)
Definition CalculateReward (mission : Mission) (timeRemaining : float)
    : option Z :=
  let baseReward := 1000%Z in
  let completionBonus := fmul (GetCompletionPercentage mission) (of_int 10) in
  let timeBonus := fmul (fdiv timeRemaining (timeLimit mission)) (of_int 500) in
  to_int (fadd (fadd (of_int baseReward) completionBonus) timeBonus).

End MissionSystem.

(** ** The order on binary32 values *)

Module Float32Facts.

Lemma fcompare_refl (x : float) :
  is_nan x = false -> SFcompare x x = Some Eq.
Proof.
  destruct x as [s|s| |s m e]; simpl; try discriminate; intros _.
  - reflexivity.
  - destruct s; reflexivity.
  - rewrite Z.compare_refl, Pos.compare_cont_refl. destruct s; reflexivity.
Qed.

Lemma fle_refl (x : float) : is_nan x = false -> fle x x = true.
Proof. intros H. unfold fle, SFleb. rewrite (fcompare_refl x H). reflexivity. Qed.

Lemma flt_fle (a b : float) : flt a b = true -> fle a b = true.
Proof.
  unfold flt, fle, SFltb, SFleb.
  destruct (SFcompare a b) as [[]|]; intros; congruence.
Qed.

Lemma fle_not_nan_l (a b : float) : fle a b = true -> is_nan a = false.
Proof. destruct a; try reflexivity. discriminate. Qed.

Lemma fle_not_nan_r (a b : float) : fle a b = true -> is_nan b = false.
Proof. destruct b; try reflexivity. destruct a; discriminate. Qed.

Lemma flt_not_nan_r (a b : float) : flt a b = true -> is_nan b = false.
Proof. intros H. apply (fle_not_nan_r a). apply flt_fle, H. Qed.

Lemma std_max_cases (a b : float) :
  (flt a b = true /\ std_max a b = b) \/ (flt a b = false /\ std_max a b = a).
Proof. unfold std_max. destruct (flt a b); auto. Qed.

Lemma std_min_cases (a b : float) :
  (flt b a = true /\ std_min a b = b) \/ (flt b a = false /\ std_min a b = a).
Proof. unfold std_min. destruct (flt b a); auto. Qed.

(** [std::max(a, b)] is never below its first argument, whatever [b] is. *)
Lemma std_max_lower (a b : float) :
  is_nan a = false -> fle a (std_max a b) = true.
Proof.
  intros Ha. destruct (std_max_cases a b) as [[H ->]|[_ ->]].
  - apply flt_fle, H.
  - apply fle_refl, Ha.
Qed.

(** [std::min(a, b)] is never above its first argument. *)
Lemma std_min_upper (a b : float) :
  is_nan a = false -> fle (std_min a b) a = true.
Proof.
  intros Ha. destruct (std_min_cases a b) as [[H ->]|[_ ->]].
  - apply flt_fle, H.
  - apply fle_refl, Ha.
Qed.

(** Comparison is transitive on the values that are not NaN. *)
Lemma fcompare_trans (a b c : float) (r1 r2 : comparison) :
  SFcompare a b = Some r1 -> SFcompare b c = Some r2 ->
  r1 <> Gt -> r2 <> Gt ->
  SFcompare a c = Some (match r1 with Eq => r2 | _ => Lt end).
Proof.
  destruct a as [sa|sa| |sa ma ea], b as [sb|sb| |sb mb eb],
           c as [sc|sc| |sc mc ec]; simpl; try discriminate;
    try (destruct sa); try (destruct sb); try (destruct sc);
    intros H1 H2 N1 N2; inversion H1; subst r1; inversion H2; subst r2;
    try reflexivity; try congruence; clear H1 H2; revert N1 N2;
    repeat match goal with
           | |- context [Pos.compare_cont Eq ?x ?y] =>
               change (Pos.compare_cont Eq x y) with (Pos.compare x y)
           end;
    repeat match goal with
           | |- context [Z.compare ?x ?y] => destruct (Z.compare_spec x y)
           end; try lia; try congruence;
    repeat match goal with
           | |- context [Pos.compare ?x ?y] => destruct (Pos.compare_spec x y)
           end; simpl; try lia; congruence.
Qed.

Lemma fcompare_antisym (a b : float) :
  SFcompare b a = option_map CompOpp (SFcompare a b).
Proof.
  destruct a as [sa|sa| |sa ma ea], b as [sb|sb| |sb mb eb]; simpl;
    try reflexivity; try (destruct sa); try (destruct sb); try reflexivity;
    rewrite (Z.compare_antisym ea eb);
    change (Pos.compare_cont Eq mb ma) with (Pos.compare mb ma);
    change (Pos.compare_cont Eq ma mb) with (Pos.compare ma mb);
    rewrite (Pos.compare_antisym ma mb);
    destruct (ea ?= eb)%Z; simpl; try reflexivity;
    destruct (ma ?= mb)%positive; reflexivity.
Qed.

Lemma fle_compare (a b : float) :
  fle a b = true <-> exists r, SFcompare a b = Some r /\ r <> Gt.
Proof.
  unfold fle, SFleb. destruct (SFcompare a b) as [[]|]; split;
    try discriminate; try (intros _; eexists; split; [reflexivity|discriminate]);
    try reflexivity; intros (r & E & N); congruence.
Qed.

Lemma flt_compare (a b : float) :
  flt a b = true <-> SFcompare a b = Some Lt.
Proof.
  unfold flt, SFltb. destruct (SFcompare a b) as [[]|]; split; congruence.
Qed.

Lemma fle_trans (a b c : float) :
  fle a b = true -> fle b c = true -> fle a c = true.
Proof.
  rewrite !fle_compare. intros (r1 & E1 & N1) (r2 & E2 & N2).
  eexists; split; [apply (fcompare_trans a b c r1 r2); assumption|].
  destruct r1; congruence.
Qed.

Lemma flt_fle_trans (a b c : float) :
  flt a b = true -> fle b c = true -> flt a c = true.
Proof.
  rewrite !flt_compare, fle_compare. intros E1 (r2 & E2 & N2).
  apply (fcompare_trans a b c Lt r2); congruence.
Qed.

Lemma fle_flt_trans (a b c : float) :
  fle a b = true -> flt b c = true -> flt a c = true.
Proof.
  rewrite !flt_compare, fle_compare. intros (r1 & E1 & N1) E2.
  rewrite (fcompare_trans a b c r1 Lt E1 E2 N1); [|discriminate].
  destruct r1; congruence.
Qed.

Lemma flt_trans (a b c : float) :
  flt a b = true -> flt b c = true -> flt a c = true.
Proof. intros H1 H2. apply (flt_fle_trans a b c H1), flt_fle, H2. Qed.

Lemma flt_irrefl (a : float) : flt a a = false.
Proof.
  unfold flt, SFltb. destruct a as [s|s| |s m e]; simpl; try reflexivity.
  - destruct s; reflexivity.
  - rewrite Z.compare_refl, Pos.compare_cont_refl. destruct s; reflexivity.
Qed.

(** Two values that compare equal, one of them finite and not zero, are the
    same value. *)
Lemma fcompare_eq_finite (s : bool) (m : positive) (e : Z) (x : float) :
  SFcompare (S754_finite s m e) x = Some Eq -> x = S754_finite s m e.
Proof.
  destruct x as [sx|sx| |sx mx ex]; simpl; try discriminate.
  - destruct s; discriminate.
  - destruct s, sx; discriminate.
  - change (Pos.compare_cont Eq m mx) with (Pos.compare m mx).
    destruct s, sx; try discriminate;
      destruct (Z.compare_spec e ex); try discriminate;
      destruct (Pos.compare_spec m mx); try discriminate; congruence.
Qed.

(** [a <= b] without [a < b] leaves only [a == b]. *)
Lemma fle_not_flt (a b : float) :
  fle a b = true -> flt a b = false -> SFcompare a b = Some Eq.
Proof.
  unfold fle, flt, SFleb, SFltb. destruct (SFcompare a b) as [[]|]; congruence.
Qed.

Lemma feq_fle (a b : float) : feq a b = true -> fle a b = true.
Proof.
  unfold feq, fle, SFeqb, SFleb. destruct (SFcompare a b) as [[]|]; congruence.
Qed.

Lemma fle_antisym (a b : float) :
  fle a b = true -> fle b a = true -> feq a b = true.
Proof.
  unfold feq, fle, SFeqb, SFleb. rewrite (fcompare_antisym a b).
  destruct (SFcompare a b) as [[]|]; simpl; congruence.
Qed.

(** Multiplication does not depend on the order of its operands. *)
Lemma fmul_comm (x y : float) : fmul x y = fmul y x.
Proof.
  unfold fmul. destruct x as [sx|sx| |sx mx ex], y as [sy|sy| |sy my ey];
    simpl; try reflexivity; rewrite ?(xorb_comm sx sy); try reflexivity.
  rewrite (Pos.mul_comm mx my), (Z.add_comm ex ey). reflexivity.
Qed.

(** The decimal literals denote the binary32 values nearest to them: each
    is the correctly rounded quotient of two integers. *)
Lemma literals_rounded :
  lit_1 = of_int 1 /\ lit_100 = of_int 100 /\
  lit_15 = of_int 15 /\ lit_3 = of_int 3 /\
  lit_0_2 = fdiv (of_int 2) (of_int 10) /\
  lit_0_01 = fdiv (of_int 1) (of_int 100) /\
  lit_1_5 = fdiv (of_int 15) (of_int 10) /\
  lit_0_5 = fdiv (of_int 5) (of_int 10) /\
  lit_0_1 = fdiv (of_int 1) (of_int 10) /\
  lit_0_95 = fdiv (of_int 95) (of_int 100).
Proof. repeat split; vm_compute; reflexivity. Qed.

End Float32Facts.

(** ** Rounding to binary32

    Facts about [binary_round_aux], the rounding step shared by the four
    arithmetic operations: the sign of its result, that its result is a
    value of the format, and that rounding a value below a representable one
    does not exceed it. *)

Module Float32Rounding.
Import Float32Facts.

Local Open Scope Z_scope.

Lemma fexp_eq (e : Z) : fexp prec emax e = Z.max (e - 24) (-149).
Proof. reflexivity. Qed.

Lemma fexp_mono (a b : Z) : a <= b -> fexp prec emax a <= fexp prec emax b.
Proof. rewrite !fexp_eq. lia. Qed.

Lemma digits2_pos_size (p : positive) : digits2_pos p = Pos.size p.
Proof. induction p as [p IH|p IH|]; simpl; congruence. Qed.

(** The number of binary digits of a positive number is its logarithm
    plus one. *)
Lemma Zdigits2_pos (p : positive) :
  Zdigits2 (Zpos p) = Z.log2 (Zpos p) + 1.
Proof.
  simpl Zdigits2. rewrite digits2_pos_size.
  destruct p as [p|p|]; simpl; try reflexivity;
    rewrite Pos2Z.inj_succ; lia.
Qed.

Lemma Zdigits2_nonneg (m : Z) : 0 <= Zdigits2 m.
Proof. destruct m; simpl; lia. Qed.

Lemma Zdigits2_mono (a b : Z) : 0 <= a <= b -> Zdigits2 a <= Zdigits2 b.
Proof.
  intros [Ha Hab]. destruct a as [|a|a]; [apply Zdigits2_nonneg| |lia].
  destruct b as [|b|b]; try lia.
  rewrite !Zdigits2_pos. pose proof (Z.log2_le_mono _ _ Hab). lia.
Qed.

Lemma Zdigits2_mul_pow2 (p : positive) (k : Z) :
  0 <= k -> Zdigits2 (Zpos p * 2 ^ k) = Zdigits2 (Zpos p) + k.
Proof.
  intros Hk. assert (0 < 2 ^ k) by (apply Z.pow_pos_nonneg; lia).
  destruct (Zpos p * 2 ^ k) as [|q|q] eqn:E; try lia.
  rewrite !Zdigits2_pos, <- E, Z.log2_mul_pow2 by lia. lia.
Qed.

Lemma Zdigits2_div_pow2 (m k : Z) :
  0 <= m -> 0 <= k -> 0 < m / 2 ^ k -> Zdigits2 (m / 2 ^ k) = Zdigits2 m - k.
Proof.
  intros Hm Hk Hq. destruct m as [|p|p]; try lia.
  - rewrite Z.div_0_l in Hq; lia.
  - destruct (Zpos p / 2 ^ k) as [|q|q] eqn:E; try lia.
    rewrite !Zdigits2_pos, <- E, <- Z.shiftr_div_pow2, Z.log2_shiftr by lia.
    rewrite <- Z.shiftr_div_pow2 in E by lia.
    assert (Z.log2 (Zpos p) < k \/ k <= Z.log2 (Zpos p)) as [C|C] by lia.
    + rewrite Z.shiftr_eq_0 in E by lia. discriminate.
    + lia.
Qed.

Lemma pow2_xI (p : positive) :
  2 ^ Zpos p~1 = 2 * (2 ^ Zpos p * 2 ^ Zpos p).
Proof.
  assert (E : Zpos p~1 = 1 + Zpos p + Zpos p) by lia.
  rewrite E, !Z.pow_add_r by lia. change (2 ^ 1) with 2. lia.
Qed.

Lemma pow2_xO (p : positive) : 2 ^ Zpos p~0 = 2 ^ Zpos p * 2 ^ Zpos p.
Proof.
  assert (E : Zpos p~0 = Zpos p + Zpos p) by lia.
  rewrite E, Z.pow_add_r by lia. reflexivity.
Qed.

(** One step of the right shift halves the mantissa. *)
Lemma shr_1_m (mrs : shr_record) :
  0 <= shr_m mrs -> shr_m (shr_1 mrs) = shr_m mrs / 2.
Proof.
  destruct mrs as [m r s]. rewrite <- Z.div2_div.
  destruct m as [|[p|p|]|p]; simpl; intros; try reflexivity; lia.
Qed.

Lemma iter_pos_shr_1_m (p : positive) (mrs : shr_record) :
  0 <= shr_m mrs ->
  shr_m (SpecFloat.iter_pos shr_1 p mrs) = shr_m mrs / 2 ^ Zpos p.
Proof.
  revert mrs. induction p as [p IH|p IH|]; intros mrs Hm; simpl.
  - assert (H1 : 0 <= shr_m (shr_1 mrs)).
    { rewrite shr_1_m by assumption. apply Z.div_pos; lia. }
    assert (H2 : 0 <= shr_m (SpecFloat.iter_pos shr_1 p (shr_1 mrs))).
    { rewrite IH by assumption. apply Z.div_pos; [assumption|].
      apply Z.pow_pos_nonneg; lia. }
    rewrite IH, IH, shr_1_m by assumption.
    assert (0 < 2 ^ Zpos p) by (apply Z.pow_pos_nonneg; lia).
    rewrite !Z.div_div by lia. f_equal. rewrite pow2_xI. lia.
  - assert (H2 : 0 <= shr_m (SpecFloat.iter_pos shr_1 p mrs)).
    { rewrite IH by assumption. apply Z.div_pos; [assumption|].
      apply Z.pow_pos_nonneg; lia. }
    rewrite IH, IH by assumption.
    assert (0 < 2 ^ Zpos p) by (apply Z.pow_pos_nonneg; lia).
    rewrite !Z.div_div by lia. f_equal. rewrite pow2_xO. lia.
  - rewrite shr_1_m by assumption. reflexivity.
Qed.

(** [shr_fexp] divides the mantissa by the power of two that brings the
    exponent up to the one the format asks for, if it is below. *)
Lemma shr_fexp_spec (m e : Z) (l : location) :
  0 <= m ->
  let n := Z.max 0 (fexp prec emax (Zdigits2 m + e) - e) in
  shr_m (fst (shr_fexp prec emax m e l)) = m / 2 ^ n /\
  snd (shr_fexp prec emax m e l) = e + n.
Proof.
  intros Hm. cbv zeta. unfold shr_fexp, shr.
  assert (Hl : shr_m (shr_record_of_loc m l) = m) by (destruct l as [|[]]; reflexivity).
  destruct (fexp prec emax (Zdigits2 m + e) - e) as [|p|p]; simpl fst; simpl snd.
  - rewrite Hl. simpl. rewrite Z.div_1_r. split; [reflexivity|lia].
  - rewrite iter_pos_shr_1_m by lia. rewrite Hl.
    replace (Z.max 0 (Zpos p)) with (Zpos p) by lia. split; reflexivity.
  - rewrite Hl. replace (Z.max 0 (Zneg p)) with 0 by lia.
    simpl. rewrite Z.div_1_r. split; [reflexivity|lia].
Qed.

Lemma round_nearest_even_bounds (m : Z) (l : location) :
  m <= round_nearest_even m l <= m + 1.
Proof. destruct l as [|[]]; simpl; try lia. destruct (Z.even m); lia. Qed.

(** [binary_round_aux] in closed form: shift to the format's exponent,
    round the mantissa up by at most one, shift again in case the rounding
    carried into a new digit, and check the exponent range. *)
Lemma binary_round_aux_cases (s : bool) (m e : Z) (l : location) :
  0 <= m ->
  let n1 := Z.max 0 (fexp prec emax (Zdigits2 m + e) - e) in
  let e1 := e + n1 in
  exists m2, m / 2 ^ n1 <= m2 <= m / 2 ^ n1 + 1 /\
    let n2 := Z.max 0 (fexp prec emax (Zdigits2 m2 + e1) - e1) in
    let e2 := e1 + n2 in
    binary_round_aux prec emax s m e l =
    match m2 / 2 ^ n2 with
    | Z0 => S754_zero s
    | Zpos p =>
        if e2 <=? emax - prec then S754_finite s p e2 else S754_infinity s
    | Zneg _ => S754_nan
    end.
Proof.
  intros Hm. cbv zeta. unfold binary_round_aux.
  destruct (shr_fexp_spec m e l Hm) as [Hm1 He1].
  destruct (shr_fexp prec emax m e l) as [mrs1 e1]. simpl in Hm1, He1.
  set (m2 := round_nearest_even (shr_m mrs1) (loc_of_shr_record mrs1)).
  assert (B : shr_m mrs1 <= m2 <= shr_m mrs1 + 1)
    by apply round_nearest_even_bounds.
  assert (Hq : 0 <= m / 2 ^ Z.max 0 (fexp prec emax (Zdigits2 m + e) - e)).
  { apply Z.div_pos; [assumption|]. apply Z.pow_pos_nonneg; lia. }
  assert (Hm2 : 0 <= m2) by lia.
  destruct (shr_fexp_spec m2 e1 loc_Exact Hm2) as [Hm3 He2].
  destruct (shr_fexp prec emax m2 e1 loc_Exact) as [mrs2 e2].
  simpl in Hm3, He2. exists m2. rewrite <- Hm1, <- He1, <- Hm3, <- He2.
  split; [exact B|reflexivity].
Qed.

(** The sign of a rounded value is the sign given to the rounding. *)
Lemma binary_round_aux_signed (s : bool) (m e : Z) (l : location) :
  signed s (binary_round_aux prec emax s m e l).
Proof.
  unfold binary_round_aux.
  destruct (shr_fexp prec emax m e l) as [mrs1 e1].
  destruct (shr_fexp prec emax _ e1 loc_Exact) as [mrs2 e2].
  destruct (shr_m mrs2); simpl; auto.
  destruct (e2 <=? emax - prec); reflexivity.
Qed.

Lemma binary_round_signed (s : bool) (m : positive) (e : Z) :
  signed s (binary_round prec emax s m e).
Proof.
  unfold binary_round. destruct (shl_align m e _) as [mz ez].
  apply binary_round_aux_signed.
Qed.

Lemma signed_false_nonneg (x : float) :
  signed false x -> is_nan x = true \/ fle lit_0 x = true.
Proof. destruct x as [s|s| |s m e]; simpl; intros; subst; auto. Qed.

Lemma signed_true_not_pos (x : float) : signed true x -> flt lit_0 x = false.
Proof. destruct x as [s|s| |s m e]; simpl; intros; subst; auto. Qed.

Lemma nonneg_signed (x : float) :
  fle lit_0 x = true ->
  match x with
  | S754_zero _ => True
  | S754_infinity s | S754_finite s _ _ => s = false
  | S754_nan => False
  end.
Proof. destruct x as [s|s| |s m e]; simpl; try destruct s; intros; auto; discriminate. Qed.

(** [shl_align] only rewrites a number with a smaller exponent. *)
Lemma Pos_iter_xO (m k : positive) :
  Zpos (Pos.iter xO m k) = Zpos m * 2 ^ Zpos k.
Proof.
  induction k as [|k IH] using Pos.peano_ind.
  - simpl. lia.
  - rewrite Pos.iter_succ, Pos2Z.inj_xO, IH, Pos2Z.inj_succ, Z.pow_succ_r by lia.
    lia.
Qed.

Lemma shl_align_spec (m : positive) (e e' : Z) :
  let r := shl_align m e e' in
  snd r = Z.min e e' /\ Zpos (fst r) = Zpos m * 2 ^ (e - snd r).
Proof.
  cbv zeta. unfold shl_align. destruct (e' - e) as [|d|d] eqn:E; simpl.
  - rewrite Z.sub_diag. simpl. lia.
  - rewrite Z.sub_diag. simpl. lia.
  - rewrite Pos_iter_xO. replace (e - e') with (Zpos d) by lia. lia.
Qed.

Lemma bounded_spec (m : positive) (e : Z) :
  bounded prec emax m e = true ->
  fexp prec emax (Zdigits2 (Zpos m) + e) = e /\ e <= 104.
Proof.
  unfold bounded, canonical_mantissa. intros H.
  apply andb_true_iff in H as [H1 H2].
  apply Z.eqb_eq in H1. apply Z.leb_le in H2. split; [exact H1|exact H2].
Qed.

(** Rounding a positive number that lies below a value of the format gives
    at most that value.  [mx * 2 ^ ex] is that value throughout. *)
Section RoundBelow.

Variables (mx : positive) (ex : Z).
Hypothesis Hb : bounded prec emax mx ex = true.

Lemma binary_round_aux_le (mz : positive) (e0 : Z) :
  e0 <= ex ->
  Zpos mz < Zpos mx * 2 ^ (ex - e0) ->
  fle (binary_round_aux prec emax false (Zpos mz) e0 loc_Exact)
      (S754_finite false mx ex) = true.
Proof.
  intros He Hlt. destruct (bounded_spec _ _ Hb) as [Hc Hmax].
  destruct (binary_round_aux_cases false (Zpos mz) e0 loc_Exact) as (m2 & B & ->);
    [lia|].
  set (n1 := Z.max 0 (fexp prec emax (Zdigits2 (Zpos mz) + e0) - e0)) in *.
  set (e1 := e0 + n1) in *.
  set (n2 := Z.max 0 (fexp prec emax (Zdigits2 m2 + e1) - e1)).
  assert (Hn1 : 0 <= n1) by (unfold n1; lia).
  assert (Hn2 : 0 <= n2) by (unfold n2; lia).
  assert (P1 : 0 < 2 ^ n1) by (apply Z.pow_pos_nonneg; lia).
  assert (P2 : 0 < 2 ^ n2) by (apply Z.pow_pos_nonneg; lia).
  (* the exponent after the first shift does not exceed [ex] *)
  assert (D : Zdigits2 (Zpos mz) + e0 <= Zdigits2 (Zpos mx) + ex).
  { assert (Zdigits2 (Zpos mz) <= Zdigits2 (Zpos mx * 2 ^ (ex - e0)))
      by (apply Zdigits2_mono; lia).
    rewrite Zdigits2_mul_pow2 in H by lia. lia. }
  assert (E1 : e1 <= ex).
  { pose proof (fexp_mono _ _ D). unfold e1, n1. lia. }
  (* the shifted mantissa stays below [mx] scaled to the same exponent *)
  assert (P3 : 0 < 2 ^ (ex - e1)) by (apply Z.pow_pos_nonneg; lia).
  assert (Hscale : Zpos mx * 2 ^ (ex - e0) = 2 ^ n1 * (Zpos mx * 2 ^ (ex - e1))).
  { replace (ex - e0) with (n1 + (ex - e1)) by (unfold e1; lia).
    rewrite Z.pow_add_r by lia. lia. }
  assert (M1 : Zpos mz / 2 ^ n1 < Zpos mx * 2 ^ (ex - e1)).
  { apply Z.div_lt_upper_bound; [exact P1|]. rewrite <- Hscale. exact Hlt. }
  assert (M0 : 0 <= Zpos mz / 2 ^ n1) by (apply Z.div_pos; lia).
  assert (M2 : 0 <= m2 <= Zpos mx * 2 ^ (ex - e1)) by lia.
  (* the exponent after the second shift does not exceed [ex] either *)
  assert (E2 : e1 + n2 <= ex).
  { assert (Zdigits2 m2 <= Zdigits2 (Zpos mx * 2 ^ (ex - e1)))
      by (apply Zdigits2_mono; lia).
    rewrite Zdigits2_mul_pow2 in H by lia.
    assert (Zdigits2 m2 + e1 <= Zdigits2 (Zpos mx) + ex) as D2 by lia.
    pose proof (fexp_mono _ _ D2). unfold n2. lia. }
  assert (M3 : 0 <= m2 / 2 ^ n2) by (apply Z.div_pos; lia).
  destruct (m2 / 2 ^ n2) as [|p|p] eqn:Q; [reflexivity| |lia].
  change (emax - prec) with 104.
  replace (e1 + n2 <=? 104) with true by (symmetry; apply Z.leb_le; lia).
  unfold fle, SFleb. simpl.
  change (Pos.compare_cont Eq p mx) with (Pos.compare p mx).
  destruct (Z.compare_spec (e1 + n2) ex) as [Heq|Hl|Hg]; [|reflexivity|lia].
  assert (Hp : Zpos p <= Zpos mx).
  { rewrite <- Q. replace n2 with (ex - e1) by lia.
    apply Z.le_trans with (Zpos mx * 2 ^ (ex - e1) / 2 ^ (ex - e1));
      [apply Z.div_le_mono; lia|rewrite Z.div_mul by lia; lia]. }
  destruct (Pos.compare_spec p mx); try reflexivity. lia.
Qed.

Lemma binary_round_le (d : positive) (ez : Z) :
  ez <= ex ->
  Zpos d < Zpos mx * 2 ^ (ex - ez) ->
  fle (binary_round prec emax false d ez) (S754_finite false mx ex) = true.
Proof.
  intros He Hlt. unfold binary_round.
  destruct (shl_align_spec d ez (fexp prec emax (Zpos (digits2_pos d) + ez)))
    as [Hs Hf].
  destruct (shl_align d ez _) as [mz e0]. simpl in Hs, Hf.
  apply binary_round_aux_le; [lia|].
  rewrite Hf. replace (ex - e0) with ((ex - ez) + (ez - e0)) by lia.
  rewrite Z.pow_add_r by lia.
  assert (0 < 2 ^ (ez - e0)) by (apply Z.pow_pos_nonneg; lia).
  nia.
Qed.

End RoundBelow.

(** A rounded number is a value of the format, provided that the input
    exponent is not above the exponent the format asks for. *)
Lemma binary_round_aux_valid (s : bool) (m e : Z) (l : location) :
  0 <= m ->
  e <= fexp prec emax (Zdigits2 m + e) ->
  valid_binary prec emax (binary_round_aux prec emax s m e l) = true.
Proof.
  intros Hm He.
  destruct (binary_round_aux_cases s m e l Hm) as (m2 & B & ->).
  set (n1 := Z.max 0 (fexp prec emax (Zdigits2 m + e) - e)) in *.
  set (e1 := e + n1) in *.
  set (n2 := Z.max 0 (fexp prec emax (Zdigits2 m2 + e1) - e1)).
  assert (Hn1 : 0 <= n1) by (unfold n1; lia).
  assert (Hn2 : 0 <= n2) by (unfold n2; lia).
  assert (P1 : 0 < 2 ^ n1) by (apply Z.pow_pos_nonneg; lia).
  assert (M1 : 0 <= m / 2 ^ n1) by (apply Z.div_pos; lia).
  assert (He1 : e1 = fexp prec emax (Zdigits2 m + e)) by (unfold e1, n1; lia).
  (* the exponent the format asks for after rounding is at least [e1] *)
  assert (F : e1 <= fexp prec emax (Zdigits2 m2 + e1)).
  { assert (m / 2 ^ n1 = 0 \/ 0 < m / 2 ^ n1) as [Z0|Zp] by lia.
    - assert (e1 = -149); [|rewrite fexp_eq; lia].
      rewrite fexp_eq in He1.
      destruct m as [|p|p]; [simpl in He1; rewrite fexp_eq in He; simpl in He; lia| |lia].
      assert (Zpos p < 2 ^ n1).
      { apply Z.div_small_iff in Z0; lia. }
      apply Z.log2_lt_pow2 in H; [|lia].
      rewrite Zdigits2_pos in He1. unfold e1 in He1 |- *. lia.
    - pose proof (Zdigits2_div_pow2 m n1 Hm Hn1 Zp) as Hd.
      assert (Zdigits2 (m / 2 ^ n1) <= Zdigits2 m2) by (apply Zdigits2_mono; lia).
      assert (Zdigits2 m + e <= Zdigits2 m2 + e1) as D by (unfold e1; lia).
      pose proof (fexp_mono _ _ D). lia. }
  assert (M3 : 0 <= m2 / 2 ^ n2).
  { apply Z.div_pos; [lia|apply Z.pow_pos_nonneg; lia]. }
  destruct (m2 / 2 ^ n2) as [|p|p] eqn:Q; [reflexivity| |lia].
  destruct (e1 + n2 <=? emax - prec) eqn:L; [|reflexivity].
  simpl. unfold bounded, canonical_mantissa. rewrite L, andb_true_r.
  apply Z.eqb_eq. change (Zpos (digits2_pos p)) with (Zdigits2 (Zpos p)).
  rewrite <- Q, Zdigits2_div_pow2 by lia.
  replace (Zdigits2 m2 - n2 + (e1 + n2)) with (Zdigits2 m2 + e1) by lia.
  unfold n2. lia.
Qed.

Lemma binary_round_valid (s : bool) (m : positive) (e : Z) :
  valid_binary prec emax (binary_round prec emax s m e) = true.
Proof.
  unfold binary_round.
  destruct (shl_align_spec m e (fexp prec emax (Zpos (digits2_pos m) + e)))
    as [Hs Hf].
  destruct (shl_align m e _) as [mz e0]. simpl in Hs, Hf.
  apply binary_round_aux_valid; [lia|].
  rewrite Hf, Zdigits2_mul_pow2 by lia.
  change (Zpos (digits2_pos m)) with (Zdigits2 (Zpos m)) in Hs.
  replace (Zdigits2 (Zpos m) + (e - e0) + e0) with (Zdigits2 (Zpos m) + e) by lia.
  lia.
Qed.

Lemma binary_normalize_valid (m e : Z) (s : bool) :
  valid_binary prec emax (binary_normalize prec emax m e s) = true.
Proof. destruct m; simpl; [reflexivity|apply binary_round_valid..]. Qed.

(** The arithmetic operations stay inside the format. *)
Lemma fadd_valid (x y : float) :
  is_float x -> is_float y -> is_float (fadd x y).
Proof.
  unfold is_float, fadd.
  destruct x as [sx|sx| |sx mx ex], y as [sy|sy| |sy my ey]; simpl;
    intros Hx Hy; auto; try (destruct sx, sy; reflexivity || assumption).
  apply binary_normalize_valid.
Qed.

Lemma fsub_valid (x y : float) :
  is_float x -> is_float y -> is_float (fsub x y).
Proof.
  unfold is_float, fsub.
  destruct x as [sx|sx| |sx mx ex], y as [sy|sy| |sy my ey]; simpl;
    intros Hx Hy; auto; try (destruct sx, sy; reflexivity || assumption).
  apply binary_normalize_valid.
Qed.

Lemma fmul_valid (x y : float) :
  is_float x -> is_float y -> is_float (fmul x y).
Proof.
  unfold is_float, fmul.
  destruct x as [sx|sx| |sx mx ex], y as [sy|sy| |sy my ey]; simpl;
    intros Hx Hy; auto.
  destruct (bounded_spec _ _ Hx) as [Cx _].
  destruct (bounded_spec _ _ Hy) as [Cy _].
  apply binary_round_aux_valid; [lia|].
  rewrite Pos2Z.inj_mul.
  assert (L : Z.log2 (Zpos mx) + Z.log2 (Zpos my) <= Z.log2 (Zpos mx * Zpos my))
    by (apply Z.log2_mul_below; lia).
  rewrite <- Pos2Z.inj_mul in L |- *.
  rewrite fexp_eq, Zdigits2_pos in *.
  pose proof (Z.log2_nonneg (Zpos mx)). pose proof (Z.log2_nonneg (Zpos my)).
  lia.
Qed.

Lemma fadd_nan_r (x : float) : fadd x S754_nan = S754_nan.
Proof. destruct x; reflexivity. Qed.

Lemma std_max_valid (a b : float) :
  is_float a -> is_float b -> is_float (std_max a b).
Proof. unfold std_max. destruct (flt a b); auto. Qed.

Lemma std_min_valid (a b : float) :
  is_float a -> is_float b -> is_float (std_min a b).
Proof. unfold std_min. destruct (flt b a); auto. Qed.

(** Subtracting a non-negative amount from a non-negative value of the
    format does not increase it. *)
Lemma fsub_le (x d : float) :
  is_float x -> fle lit_0 x = true -> fle lit_0 d = true ->
  flt lit_0 (fsub x d) = true ->
  fle (fsub x d) x = true.
Proof.
  intros Vx Hx Hd. pose proof (nonneg_signed _ Hx) as Sx.
  pose proof (nonneg_signed _ Hd) as Sd. unfold fsub.
  destruct x as [sx|sx| |sx mx ex], d as [sd|sd| |sd md ed]; simpl in Sx, Sd;
    subst; try contradiction; simpl; try (destruct sx); try (destruct sd);
    try discriminate; try reflexivity.
  - (* finite, zero *) intros _. apply fle_refl. reflexivity.
  - intros _. apply fle_refl. reflexivity.
  - (* finite, finite *)
    set (ez := Z.min ex ed).
    destruct (shl_align_spec mx ex ez) as [Hsx Hfx].
    destruct (shl_align_spec md ed ez) as [Hsd Hfd].
    replace (Z.min ex ez) with ez in Hsx by (unfold ez; lia).
    replace (Z.min ed ez) with ez in Hsd by (unfold ez; lia).
    rewrite Hsx in Hfx. rewrite Hsd in Hfd.
    destruct (Zpos (fst (shl_align mx ex ez)) - Zpos (fst (shl_align md ed ez)))
      as [|p|p] eqn:E; simpl.
    + discriminate.
    + intros _. apply binary_round_le; [exact Vx|unfold ez; lia|lia].
    + intros H. rewrite signed_true_not_pos in H by apply binary_round_signed.
      discriminate.
Qed.

(** Products and sums of non-negative values are non-negative, when they
    are numbers at all. *)
Lemma fmul_nonneg (x y : float) :
  fle lit_0 x = true -> fle lit_0 y = true ->
  is_nan (fmul x y) = true \/ fle lit_0 (fmul x y) = true.
Proof.
  intros Hx Hy. pose proof (nonneg_signed _ Hx) as Sx.
  pose proof (nonneg_signed _ Hy) as Sy. unfold fmul.
  destruct x as [sx|sx| |sx mx ex], y as [sy|sy| |sy my ey]; simpl in Sx, Sy;
    subst; try contradiction; simpl; auto.
  apply signed_false_nonneg, binary_round_aux_signed.
Qed.

Lemma fadd_nonneg (x y : float) :
  fle lit_0 x = true -> fle lit_0 y = true ->
  is_nan (fadd x y) = true \/ fle lit_0 (fadd x y) = true.
Proof.
  intros Hx Hy. pose proof (nonneg_signed _ Hx) as Sx.
  pose proof (nonneg_signed _ Hy) as Sy. unfold fadd.
  destruct x as [sx|sx| |sx mx ex], y as [sy|sy| |sy my ey]; simpl in Sx, Sy;
    subst; try contradiction; simpl; auto.
  - destruct sx, sy; auto.
  - apply signed_false_nonneg, binary_round_signed.
Qed.

End Float32Rounding.

(** ** EnemyAIBehavior: the decision procedure and the damage formula *)

Module EnemyAIBehaviorFacts.
Import EnemyAIBehavior Float32Facts.

(** C1.  [DecideAction] returns the first matching case of the priority
    order: DEAD if [currentHealth <= 0]; else STUNNED if
    [currentHealth < 0.2 * maxHealth]; else ATTACK if the target is nearer
    than [attackRange] and in line of sight; else CHASE if it is nearer than
    [detectionRange] and in line of sight; else PATROL.  With maxHealth 100,
    detectionRange 15, attackRange 3, distance 2 and line of sight, health
    100 yields ATTACK and health 15 yields STUNNED. *)
Theorem DecideAction_priority (self : t) (distance playerHealth : float)
    (los : bool) :
  let dead := fle (currentHealth self) lit_0 in
  let low := flt (currentHealth self) (fmul lit_0_2 (maxHealth self)) in
  let near := flt distance (attackRange self) && los in
  let seen := flt distance (detectionRange self) && los in
  let action := DecideAction self distance playerHealth los in
  (dead = true -> action = DEAD) /\
  (dead = false -> low = true -> action = STUNNED) /\
  (dead = false -> low = false -> near = true -> action = ATTACK) /\
  (dead = false -> low = false -> near = false -> seen = true ->
     action = CHASE) /\
  (dead = false -> low = false -> near = false -> seen = false ->
     action = PATROL) /\
  DecideAction (mk lit_15 lit_3 lit_100 lit_100) (of_int 2) playerHealth true
    = ATTACK /\
  DecideAction (mk lit_15 lit_3 (of_int 15) lit_100) (of_int 2) playerHealth true
    = STUNNED.
Proof.
  cbv zeta. unfold DecideAction. rewrite (fmul_comm lit_0_2).
  repeat split; try reflexivity; intros; 
    repeat match goal with H : _ = _ |- _ => rewrite H; clear H end;
    reflexivity.
Qed.

Lemma DecideAction_priority_witness :
  DecideAction (mk lit_15 lit_3 lit_0 lit_100) (of_int 2) lit_100 true = DEAD /\
  DecideAction (mk lit_15 lit_3 (of_int 15) lit_100) (of_int 2) lit_100 true = STUNNED /\
  DecideAction (mk lit_15 lit_3 lit_100 lit_100) (of_int 2) lit_100 true = ATTACK /\
  DecideAction (mk lit_15 lit_3 lit_100 lit_100) (of_int 10) lit_100 true = CHASE /\
  DecideAction (mk lit_15 lit_3 lit_100 lit_100) (of_int 10) lit_100 false = PATROL.
Proof.
  split; [|split; [|split; [|split]]].
  - apply (DecideAction_priority (mk lit_15 lit_3 lit_0 lit_100) (of_int 2) lit_100 true).
    reflexivity.
  - apply (DecideAction_priority (mk lit_15 lit_3 (of_int 15) lit_100) (of_int 2) lit_100 true);
      reflexivity.
  - apply (DecideAction_priority (mk lit_15 lit_3 lit_100 lit_100) (of_int 2) lit_100 true);
      reflexivity.
  - apply (DecideAction_priority (mk lit_15 lit_3 lit_100 lit_100) (of_int 10) lit_100 true);
      reflexivity.
  - apply (DecideAction_priority (mk lit_15 lit_3 lit_100 lit_100) (of_int 10) lit_100 false);
      reflexivity.
Defined.

(** C4.  [CalculateDamage] returns the larger of 1.0 and
    [basePower * (1 - 0.01 * targetDefense)], that product multiplied by 1.5
    on a critical hit: it returns the product when the product exceeds 1.0
    and 1.0 otherwise (also when the product is not a number), so the result
    is never below 1.0 and never below the product, for every base power
    (negative ones included), every defense and either flag.  With base power 50 and defense 150 the product is -25 and
    the result is 1.0. *)
Theorem CalculateDamage_floor (self : t) (basePower targetDefense : float)
    (isCritical : bool) :
  let product := fmul basePower (fsub lit_1 (fmul lit_0_01 targetDefense)) in
  let damage := if isCritical then fmul product lit_1_5 else product in
  let result := CalculateDamage self basePower targetDefense isCritical in
  (result = damage \/ result = lit_1) /\
  fle lit_1 result = true /\
  flt result damage = false /\
  (flt lit_1 damage = true -> result = damage) /\
  (flt lit_1 damage = false -> result = lit_1) /\
  fmul (of_int 50) (fsub lit_1 (fmul lit_0_01 (of_int 150))) = of_int (-25) /\
  CalculateDamage self (of_int 50) (of_int 150) false = lit_1.
Proof.
  cbv zeta. unfold CalculateDamage. rewrite (fmul_comm lit_0_01).
  set (damage := if isCritical then _ else _).
  destruct (std_max_cases lit_1 damage) as [[H E]|[H E]]; rewrite E;
    repeat split; auto; try reflexivity.
  - apply flt_fle, H.
  - apply flt_irrefl.
  - intros C. congruence.
  - intros C. congruence.
Qed.

Lemma CalculateDamage_floor_witness :
  CalculateDamage (new lit_100) (of_int 50) (of_int 150) true = lit_1 /\
  CalculateDamage (new lit_100) (of_int 50) (of_int 50) true
    = fmul (fmul (of_int 50) (fsub lit_1 (fmul lit_0_01 (of_int 50)))) lit_1_5.
Proof.
  split.
  - destruct (CalculateDamage_floor (new lit_100) (of_int 50) (of_int 150) true)
      as (_ & _ & _ & _ & Hfloor & _).
    apply Hfloor. reflexivity.
  - destruct (CalculateDamage_floor (new lit_100) (of_int 50) (of_int 50) true)
      as (_ & _ & _ & Hkeep & _).
    apply Hkeep. reflexivity.
Defined.

(** [d < 3.0f] implies [d < 15.0f]: the attack range lies inside the
    detection range. *)
Lemma attack_range_inside_detection (d : float) :
  flt d lit_3 = true -> flt d lit_15 = true.
Proof. intros H. apply (flt_trans d lit_3 lit_15 H). reflexivity. Qed.

Lemma after_ranges (self : t) (c : Call) :
  detectionRange (after self c) = detectionRange self /\
  attackRange (after self c) = attackRange self.
Proof. destruct c; split; reflexivity. Qed.

Lemma reachable_ranges (self : t) :
  reachable self -> detectionRange self = lit_15 /\ attackRange self = lit_3.
Proof.
  induction 1 as [maxHp|self c _ [IHd IHa]].
  - split; reflexivity.
  - destruct (after_ranges self c) as [-> ->]. auto.
Qed.

(** C10.  Every instance is constructed with detectionRange 15.0 and
    attackRange 3.0 and no public member function changes either field, so in
    every reachable state attackRange <= detectionRange; every distance
    inside the attack range is inside the detection range, and on such a
    distance with line of sight [DecideAction] answers ATTACK, never CHASE,
    unless health makes it DEAD or STUNNED. *)
Theorem ranges_fixed (self : t) :
  reachable self ->
  (forall maxHp, detectionRange (new maxHp) = lit_15 /\
                 attackRange (new maxHp) = lit_3) /\
  (forall c, detectionRange (after self c) = detectionRange self /\
             attackRange (after self c) = attackRange self) /\
  detectionRange self = lit_15 /\ attackRange self = lit_3 /\
  fle (attackRange self) (detectionRange self) = true /\
  (forall d, flt d (attackRange self) = true ->
             flt d (detectionRange self) = true) /\
  (forall d playerHealth,
     flt d (attackRange self) = true ->
     DecideAction self d playerHealth true <> CHASE /\
     (fle (currentHealth self) lit_0 = false ->
      flt (currentHealth self) (fmul (maxHealth self) lit_0_2) = false ->
      DecideAction self d playerHealth true = ATTACK)).
Proof.
  intros R. destruct (reachable_ranges self R) as [Ed Ea].
  split; [intros; split; reflexivity|].
  split; [apply after_ranges|].
  rewrite Ed, Ea.
  split; [reflexivity|]. split; [reflexivity|]. split; [reflexivity|].
  split; [apply attack_range_inside_detection|].
  intros d playerHealth Hnear. unfold DecideAction. rewrite Ea, Hnear.
  cbn [andb]. split.
  - destruct (fle (currentHealth self) lit_0); [discriminate|].
    destruct (flt (currentHealth self) _); discriminate.
  - intros -> ->. reflexivity.
Qed.

Lemma ranges_fixed_witness :
  detectionRange (Heal (TakeDamage (new lit_100) (of_int 30)) (of_int 10)) = lit_15 /\
  attackRange (Heal (TakeDamage (new lit_100) (of_int 30)) (of_int 10)) = lit_3 /\
  DecideAction (Heal (TakeDamage (new lit_100) (of_int 30)) (of_int 10))
    (of_int 2) lit_100 true = ATTACK.
Proof.
  assert (R : reachable (Heal (TakeDamage (new lit_100) (of_int 30)) (of_int 10))).
  { apply (reachable_call _ (CallHeal (of_int 10))).
    apply (reachable_call _ (CallTakeDamage (of_int 30))).
    apply reachable_new. }
  destruct (ranges_fixed _ R) as (_ & _ & Ed & Ea & _ & _ & HA).
  split; [exact Ed|]. split; [exact Ea|].
  apply (HA (of_int 2) lit_100); reflexivity.
Defined.

End EnemyAIBehaviorFacts.

(** ** CombatSystem: hit chance and elemental multipliers *)

Module CombatSystemFacts.
Import CombatSystem Float32Facts.

(** C2.  [GetElementalMultiplier] returns 1.0 whenever the attacker's
    element is Null, whatever the target, and on {Fire, Ice, Lightning} it
    returns the cyclic advantage table: Fire->Ice 1.5, Fire->Lightning 0.5,
    Fire->Fire 1.0, Ice->Lightning 1.5, Ice->Fire 0.5, Ice->Ice 1.0,
    Lightning->Fire 1.5, Lightning->Ice 0.5, Lightning->Lightning 1.0. *)
Theorem GetElementalMultiplier_table :
  (forall target, GetElementalMultiplier NULL_ELEMENT target = Some lit_1) /\
  GetElementalMultiplier FIRE ICE = Some lit_1_5 /\
  GetElementalMultiplier FIRE LIGHTNING = Some lit_0_5 /\
  GetElementalMultiplier FIRE FIRE = Some lit_1 /\
  GetElementalMultiplier ICE LIGHTNING = Some lit_1_5 /\
  GetElementalMultiplier ICE FIRE = Some lit_0_5 /\
  GetElementalMultiplier ICE ICE = Some lit_1 /\
  GetElementalMultiplier LIGHTNING FIRE = Some lit_1_5 /\
  GetElementalMultiplier LIGHTNING ICE = Some lit_0_5 /\
  GetElementalMultiplier LIGHTNING LIGHTNING = Some lit_1.
Proof. repeat split. Qed.

(** C3.  With an attacker in {Fire, Ice, Lightning} and the target Null,
    [GetElementalMultiplier] reads column 3 of a matrix with 3 rows of 3
    columns: the lookup is out of bounds.  The lookup succeeds exactly when
    the attacker is Null or the target is not Null. *)
Theorem GetElementalMultiplier_out_of_bounds :
  Element_index NULL_ELEMENT = 3 /\
  length matrix = 3 /\
  Forall (fun row => length row = 3) matrix /\
  GetElementalMultiplier FIRE NULL_ELEMENT = None /\
  GetElementalMultiplier ICE NULL_ELEMENT = None /\
  GetElementalMultiplier LIGHTNING NULL_ELEMENT = None /\
  (forall attack target,
     GetElementalMultiplier attack target = None <->
     attack <> NULL_ELEMENT /\ target = NULL_ELEMENT).
Proof.
  repeat split; try reflexivity.
  - repeat constructor.
  - destruct attack; discriminate.
  - destruct attack, target; try discriminate; reflexivity.
  - intros [Ha ->]. destruct attack; try reflexivity. congruence.
Qed.

(** A value that compares equal to 0.95f is 0.95f. *)
Lemma feq_lit_0_95 (q : float) :
  fle q lit_0_95 = true -> flt q lit_0_95 = false -> q = lit_0_95.
Proof.
  intros A Hm. pose proof (fle_not_flt _ _ A Hm) as E.
  apply (fcompare_eq_finite false 15938355 (-24) q).
  change (S754_finite false 15938355 (-24)) with lit_0_95.
  rewrite (fcompare_antisym q lit_0_95), E. reflexivity.
Qed.

(** The clamping line of [CalculateHit], for any value of the quotient. *)
Lemma clamp_cases (q : float) :
  let chance := std_max lit_0_1 (std_min lit_0_95 q) in
  fle lit_0_1 chance = true /\
  fle chance lit_0_95 = true /\
  (flt q lit_0_1 = true -> chance = lit_0_1) /\
  (flt lit_0_95 q = true -> chance = lit_0_95) /\
  (fle lit_0_1 q = true -> fle q lit_0_95 = true -> chance = q) /\
  (is_nan q = true -> chance = lit_0_95).
Proof.
  cbv zeta.
  assert (L : flt lit_0_1 lit_0_95 = true) by reflexivity.
  split; [apply std_max_lower; reflexivity|].
  destruct (std_min_cases lit_0_95 q) as [[Hm Em]|[Hm Em]]; rewrite Em.
  - destruct (std_max_cases lit_0_1 q) as [[Hx Ex]|[Hx Ex]]; rewrite Ex.
    + (* 0.1 < q < 0.95 *)
      split; [apply flt_fle, Hm|].
      split; [intros C; pose proof (flt_trans _ _ _ C Hx) as A;
              rewrite flt_irrefl in A; discriminate A|].
      split; [intros C; pose proof (flt_trans _ _ _ C Hm) as A;
              rewrite flt_irrefl in A; discriminate A|].
      split; [reflexivity|].
      intros N. destruct q; discriminate.
    + (* q < 0.95 but not 0.1 < q *)
      split; [reflexivity|].
      split; [reflexivity|].
      split; [intros C; pose proof (flt_trans _ _ _ C Hm) as A;
              rewrite flt_irrefl in A; discriminate A|].
      split.
      * intros A _. symmetry.
        apply (fcompare_eq_finite false 13421773 (-27) q).
        apply fle_not_flt; assumption.
      * intros N. destruct q; discriminate.
  - (* not q < 0.95 *)
    destruct (std_max_cases lit_0_1 lit_0_95) as [[Hy Ey]|[Hy Ey]];
      [|rewrite L in Hy; discriminate Hy].
    rewrite Ey.
    split; [reflexivity|].
    split; [intros C; pose proof (flt_trans _ _ _ C L) as A;
            rewrite A in Hm; discriminate Hm|].
    split; [reflexivity|].
    split; [|reflexivity].
    intros _ A. symmetry. apply feq_lit_0_95; assumption.
Qed.

(** A test that holds on each of the residues 0 to 99 holds on every
    residue of a division by 100. *)
Lemma residue_table (P : Z -> bool) (k : Z) :
  forallb P (map Z.of_nat (seq 0 100)) = true ->
  (0 <= k < 100)%Z -> P k = true.
Proof.
  intros T Hk. rewrite forallb_forall in T. apply T.
  apply in_map_iff. exists (Z.to_nat k). split; [lia|].
  apply in_seq. lia.
Qed.

(** The hundred values of [(rand() % 100) / 100.0f] lie in [0, 1). *)
Lemma draw_unit (k : Z) :
  (0 <= k < 100)%Z ->
  fle lit_0 (fdiv (of_int k) lit_100) = true /\
  flt (fdiv (of_int k) lit_100) lit_1 = true.
Proof.
  intros Hk. apply andb_true_iff.
  apply (residue_table
           (fun k => fle lit_0 (fdiv (of_int k) lit_100)
                     && flt (fdiv (of_int k) lit_100) lit_1)); [|exact Hk].
  vm_compute. reflexivity.
Qed.

(** They are strictly ordered like the residues: rounding merges no two. *)
Lemma draw_increasing (j k : Z) :
  (0 <= j < k)%Z -> (k < 100)%Z ->
  flt (fdiv (of_int j) lit_100) (fdiv (of_int k) lit_100) = true.
Proof.
  intros Hj Hk.
  pose proof (residue_table
    (fun j => forallb
       (fun k => if (j <? k)%Z
                 then flt (fdiv (of_int j) lit_100) (fdiv (of_int k) lit_100)
                 else true)
       (map Z.of_nat (seq 0 100))) j) as T.
  cbv beta in T.
  assert (R : forallb
       (fun k => if (j <? k)%Z
                 then flt (fdiv (of_int j) lit_100) (fdiv (of_int k) lit_100)
                 else true)
       (map Z.of_nat (seq 0 100)) = true).
  { apply T; [vm_compute; reflexivity|lia]. }
  pose proof (residue_table _ k R ltac:(lia)) as E. cbv beta in E.
  destruct (Z.ltb_spec j k) as [_|C]; [exact E|lia].
Qed.

(** C7.  The hit chance is [(accuracy - evasion) / 100] clamped to
    [0.10, 0.95]: it always lies in that closed interval, it is the lower
    bound when the quotient is below it, the upper bound when the quotient
    is above it (or is not a number), and the quotient itself when the
    quotient lies in the interval.  [CalculateHit] returns true exactly when
    the draw is strictly less than this chance, where the draw is
    [(rand() % 100) / 100.0f]: for a result of [rand()], which is never
    negative, it lies in [0, 1), a larger residue gives a strictly larger
    draw, and so a hit stays a hit for every residue that is not larger. *)
Theorem hitChance_clamped (rand_value : Z) (accuracy evasion : float) :
  let quotient := fdiv (fsub accuracy evasion) lit_100 in
  let chance := hitChance accuracy evasion in
  fle lit_0_1 chance = true /\
  fle chance lit_0_95 = true /\
  (flt quotient lit_0_1 = true -> chance = lit_0_1) /\
  (flt lit_0_95 quotient = true -> chance = lit_0_95) /\
  (fle lit_0_1 quotient = true -> fle quotient lit_0_95 = true ->
     chance = quotient) /\
  (is_nan quotient = true -> chance = lit_0_95) /\
  CalculateHit rand_value accuracy evasion = flt (draw rand_value) chance /\
  (CalculateHit rand_value accuracy evasion = true <->
     flt (fdiv (of_int (Z.rem rand_value 100)) lit_100) chance = true) /\
  ((0 <= rand_value)%Z ->
     draw rand_value = fdiv (of_int (rand_value mod 100)) lit_100 /\
     fle lit_0 (draw rand_value) = true /\
     flt (draw rand_value) lit_1 = true /\
     (forall other, (0 <= other)%Z ->
        ((other mod 100 < rand_value mod 100)%Z ->
           flt (draw other) (draw rand_value) = true) /\
        ((other mod 100 <= rand_value mod 100)%Z ->
           CalculateHit rand_value accuracy evasion = true ->
           CalculateHit other accuracy evasion = true))).
Proof.
  cbv zeta. unfold CalculateHit, hitChance.
  generalize (fdiv (fsub accuracy evasion) lit_100). intros q.
  pose proof (clamp_cases q) as (H1 & H2 & H3 & H4 & H5 & H6).
  repeat (split; [assumption|]).
  cbv zeta in H1, H2. clear H3 H4 H5 H6.
  generalize dependent (std_max lit_0_1 (std_min lit_0_95 q)).
  intros chance _ _.
  split; [reflexivity|]. split; [reflexivity|].
  intros Hr. unfold draw.
  rewrite (Z.rem_mod_nonneg rand_value 100) by lia.
  pose proof (Z.mod_pos_bound rand_value 100 ltac:(lia)) as B.
  destruct (draw_unit _ B) as (U0 & U1).
  repeat (split; [assumption || reflexivity|]).
  intros other Ho.
  rewrite (Z.rem_mod_nonneg other 100) by lia.
  pose proof (Z.mod_pos_bound other 100 ltac:(lia)) as Bo.
  split.
  - intros L. apply draw_increasing; lia.
  - intros L Hit.
    destruct (Z.eq_dec (other mod 100)%Z (rand_value mod 100)%Z) as [E|N];
      [rewrite E; exact Hit|].
    apply (flt_trans _ (fdiv (of_int (rand_value mod 100)%Z) lit_100));
      [|exact Hit].
    apply draw_increasing; lia.
Qed.

Lemma hitChance_clamped_witness :
  hitChance (of_int 0) (of_int 500) = lit_0_1 /\
  hitChance (of_int 500) (of_int 0) = lit_0_95 /\
  hitChance (of_int 80) (of_int 30) = lit_0_5 /\
  hitChance (S754_infinity false) (S754_infinity false) = lit_0_95 /\
  draw 1804289350 = lit_0_5 /\
  CalculateHit 1804289350 (of_int 80) (of_int 30) = false /\
  CalculateHit 1804289349 (of_int 80) (of_int 30) = true /\
  CalculateHit 7 (of_int 80) (of_int 30) = true.
Proof.
  destruct (hitChance_clamped 0 (of_int 0) (of_int 500))
    as (_ & _ & Hlow & _).
  destruct (hitChance_clamped 0 (of_int 500) (of_int 0))
    as (_ & _ & _ & Hhigh & _).
  destruct (hitChance_clamped 0 (S754_infinity false) (S754_infinity false))
    as (_ & _ & _ & _ & _ & Hnan & _).
  destruct (hitChance_clamped 1804289350 (of_int 80) (of_int 30))
    as (_ & _ & _ & _ & Hmid & _ & Hmiss & _ & Hdraw).
  destruct (hitChance_clamped 1804289349 (of_int 80) (of_int 30))
    as (_ & _ & _ & _ & _ & _ & _ & Hhit & Hbelow).
  destruct (Hdraw ltac:(lia)) as (Hd & _).
  destruct (Hbelow ltac:(lia)) as (_ & _ & _ & Hother).
  destruct (Hother 7%Z ltac:(lia)) as (_ & Hstill).
  assert (C : hitChance (of_int 80) (of_int 30) = lit_0_5)
    by (apply Hmid; reflexivity).
  assert (T : CalculateHit 1804289349 (of_int 80) (of_int 30) = true).
  { apply Hhit. rewrite C. reflexivity. }
  split; [|split; [|split; [|split; [|split; [|split; [|split]]]]]].
  - apply Hlow. reflexivity.
  - apply Hhigh. reflexivity.
  - exact C.
  - apply Hnan. reflexivity.
  - rewrite Hd. reflexivity.
  - rewrite Hmiss, Hd, C. reflexivity.
  - exact T.
  - apply Hstill; [vm_compute; discriminate|exact T].
Defined.

End CombatSystemFacts.

(** ** MissionSystem: completion flag and percentage *)

Module MissionSystemFacts.
Import MissionSystem Float32Facts.

(** Dividing by a zero never yields a zero: the quotient is an infinity or
    not a number. *)
Lemma fdiv_by_zero_scaled (x : float) (s : bool) :
  fmul (fdiv x (S754_zero s)) lit_100 <> lit_0.
Proof. destruct x as [sx|sx| |sx mx ex]; discriminate. Qed.

(** C9.  [GetCompletionPercentage] returns exactly 0 when targetCount is 0
    (which is not what the division would produce), and otherwise
    targetsEliminated / targetCount * 100; [IsMissionComplete] returns true
    iff targetsEliminated >= targetCount.  With targetCount 10 and
    targetsEliminated 10 the mission is complete and the percentage is
    100.0. *)
Theorem mission_progress (mission : Mission) :
  let quotient := fmul (fdiv (of_int (targetsEliminated mission))
                             (of_int (targetCount mission))) lit_100 in
  (targetCount mission = 0%Z ->
     GetCompletionPercentage mission = lit_0 /\ quotient <> lit_0) /\
  (targetCount mission <> 0%Z -> GetCompletionPercentage mission = quotient) /\
  (IsMissionComplete mission = true <->
     (targetsEliminated mission >= targetCount mission)%Z) /\
  (targetCount mission = 10%Z -> targetsEliminated mission = 10%Z ->
     IsMissionComplete mission = true /\
     GetCompletionPercentage mission = lit_100).
Proof.
  cbv zeta. unfold GetCompletionPercentage, IsMissionComplete.
  split; [|split; [|split]].
  - intros ->. split; [reflexivity|].
    apply (fdiv_by_zero_scaled _ false).
  - intros H. apply Z.eqb_neq in H. rewrite H. reflexivity.
  - rewrite Z.geb_le. lia.
  - intros -> ->. split; reflexivity.
Qed.

Lemma mission_progress_witness :
  GetCompletionPercentage (mkMission 1 "m" lit_0 0 5 false lit_100) = lit_0 /\
  GetCompletionPercentage (mkMission 1 "m" lit_0 4 1 false lit_100) = of_int 25 /\
  IsMissionComplete (mkMission 1 "m" lit_0 10 10 false lit_100) = true /\
  GetCompletionPercentage (mkMission 1 "m" lit_0 10 10 false lit_100) = lit_100.
Proof.
  split; [|split].
  - destruct (mission_progress (mkMission 1 "m" lit_0 0 5 false lit_100))
      as (Hzero & _).
    apply Hzero. reflexivity.
  - destruct (mission_progress (mkMission 1 "m" lit_0 4 1 false lit_100))
      as (_ & Hdiv & _).
    rewrite Hdiv; [reflexivity|]. simpl. lia.
  - destruct (mission_progress (mkMission 1 "m" lit_0 10 10 false lit_100))
      as (_ & _ & _ & Hten).
    apply Hten; reflexivity.
Defined.

End MissionSystemFacts.

(** ** SkillSystem: the cooldown and mana ledger *)

Module SkillSystemFacts.
Import SkillSystem Float32Facts Float32Rounding.

Lemma CanUseSkill_loop_first (self : t) (id : Z) (rest : list Skill) (i : nat) :
  CanUseSkill_loop self rest id =
  match first_with_id i rest id with
  | Some (_, skill) => usable self skill
  | None => false
  end.
Proof.
  revert i. induction rest as [|skill rest IH]; intros i; simpl.
  - reflexivity.
  - destruct (skillId skill =? id)%Z; [reflexivity|apply IH].
Qed.

Lemma CanUseSkill_first (self : t) (id : Z) :
  CanUseSkill self id =
  match first_with_id 0 (skills self) id with
  | Some (_, skill) => usable self skill
  | None => false
  end.
Proof. apply CanUseSkill_loop_first. Qed.

Lemma UseSkill_loop_first (self : t) (id : Z) (rest : list Skill) (i : nat) :
  UseSkill_loop self i rest id =
  if CanUseSkill self id then
    match first_with_id i rest id with
    | Some (j, skill) => committed self j skill
    | None => self
    end
  else self.
Proof.
  revert i. induction rest as [|skill rest IH]; intros i; simpl.
  - destruct (CanUseSkill self id); reflexivity.
  - rewrite IH. destruct (CanUseSkill self id).
    + rewrite andb_true_r. destruct (skillId skill =? id)%Z; reflexivity.
    + rewrite andb_false_r. reflexivity.
Qed.

Lemma UseSkill_first (self : t) (id : Z) :
  UseSkill self id =
  if CanUseSkill self id then
    match first_with_id 0 (skills self) id with
    | Some (j, skill) => committed self j skill
    | None => self
    end
  else self.
Proof. apply UseSkill_loop_first. Qed.

(** What [first_with_id] finds: the position (counted from [i]) of a skill
    with the id, before which no skill has the id. *)
Lemma first_with_id_Some (l : list Skill) (id : Z) (i j : nat) (skill : Skill) :
  first_with_id i l id = Some (j, skill) ->
  i <= j /\ l !! (j - i) = Some skill /\ skillId skill = id /\
  forall k other, k < j - i -> l !! k = Some other -> skillId other <> id.
Proof.
  revert i. induction l as [|x l IH]; intros i; simpl; [discriminate|].
  destruct (skillId x =? id)%Z eqn:E.
  - intros [= <- <-]. apply Z.eqb_eq in E. rewrite Nat.sub_diag.
    repeat split; auto. intros k other Hk. lia.
  - intros H. destruct (IH _ H) as (Hle & Hl & Hid & Hbefore).
    split; [lia|].
    replace (j - i) with (S (j - S i)) by lia.
    repeat split; auto.
    intros [|k] other Hk; simpl.
    + intros [= <-]. apply Z.eqb_neq in E. exact E.
    + apply Hbefore. lia.
Qed.

Lemma first_with_id_None (l : list Skill) (id : Z) (i : nat) :
  first_with_id i l id = None <->
  forall skill, skill ∈ l -> skillId skill <> id.
Proof.
  revert i. induction l as [|x l IH]; intros i; simpl.
  - split; [|reflexivity]. intros _ skill H. inversion H.
  - destruct (skillId x =? id)%Z eqn:E.
    + split; [discriminate|]. intros H. apply Z.eqb_eq in E.
      exfalso. apply (H x); [left|exact E].
    + rewrite IH. apply Z.eqb_neq in E. split.
      * intros H skill Hin. inversion Hin; subst; auto.
      * intros H skill Hin. apply H. right. exact Hin.
Qed.

(** Writing a skill of the same id at the found position does not move the
    position. *)
Lemma first_with_id_insert (l : list Skill) (id : Z) (i j : nat)
    (skill skill' : Skill) :
  first_with_id i l id = Some (j, skill) ->
  skillId skill' = id ->
  first_with_id i (<[j - i := skill']> l) id = Some (j, skill').
Proof.
  revert i. induction l as [|x l IH]; intros i; simpl; [discriminate|].
  destruct (skillId x =? id)%Z eqn:E.
  - intros [= <- <-] Hid. rewrite Nat.sub_diag. simpl.
    apply Z.eqb_eq in Hid. rewrite Hid. reflexivity.
  - intros H Hid. destruct (first_with_id_Some _ _ _ _ _ H) as (Hle & _).
    replace (j - i) with (S (j - S i)) by lia. simpl. rewrite E.
    apply IH; assumption.
Qed.

(** With unique ids, a skill with the id is the one [first_with_id] finds. *)
Lemma first_with_id_unique (l : list Skill) (id : Z) (j : nat)
    (skill other : Skill) :
  NoDup (map skillId l) ->
  first_with_id 0 l id = Some (j, skill) ->
  other ∈ l -> skillId other = id -> other = skill.
Proof.
  intros Hnd Hfirst Hin Hid.
  destruct (first_with_id_Some _ _ _ _ _ Hfirst) as (_ & Hj & Hsk & _).
  rewrite Nat.sub_0_r in Hj.
  apply list_elem_of_lookup in Hin as [k Hk].
  assert (k = j).
  { apply (NoDup_lookup (map skillId l) k j id); [exact Hnd| |].
    - rewrite list_lookup_fmap, Hk. simpl. congruence.
    - rewrite list_lookup_fmap, Hj. simpl. congruence. }
  subst k. congruence.
Qed.

(** C5.  [UseSkill] deducts the skill's manaCost from currentMana and
    resets its cooldownRemaining to its cooldown if and only if
    [CanUseSkill] holds at call time, touching no other skill; when the
    skill is unknown, on cooldown or unaffordable the call returns the state
    unchanged, and so does a second call right after a successful one whose
    cooldown is positive. *)
Theorem UseSkill_iff_CanUseSkill (self : t) (id : Z) :
  (CanUseSkill self id = true ->
     exists i skill,
       skills self !! i = Some skill /\ skillId skill = id /\
       UseSkill self id = committed self i skill /\
       currentMana (UseSkill self id)
         = fsub (currentMana self) (manaCost skill) /\
       skills (UseSkill self id) !! i = Some (reset_cooldown skill) /\
       cooldownRemaining (reset_cooldown skill) = cooldown skill /\
       (forall k, k <> i -> skills (UseSkill self id) !! k = skills self !! k) /\
       maxMana (UseSkill self id) = maxMana self) /\
  (CanUseSkill self id = false -> UseSkill self id = self) /\
  ((forall skill, skill ∈ skills self -> skillId skill <> id) ->
     UseSkill self id = self) /\
  (forall i skill, first_with_id 0 (skills self) id = Some (i, skill) ->
     fle (cooldownRemaining skill) lit_0 = false -> UseSkill self id = self) /\
  (forall i skill, first_with_id 0 (skills self) id = Some (i, skill) ->
     fle (manaCost skill) (currentMana self) = false ->
     UseSkill self id = self) /\
  (forall i skill, first_with_id 0 (skills self) id = Some (i, skill) ->
     fle (cooldown skill) lit_0 = false ->
     UseSkill (UseSkill self id) id = UseSkill self id).
Proof.
  assert (Hfalse : CanUseSkill self id = false -> UseSkill self id = self).
  { intros H. rewrite UseSkill_first, H. reflexivity. }
  split; [|split; [exact Hfalse|split; [|split; [|split]]]].
  - intros Hcan. rewrite UseSkill_first, Hcan.
    rewrite CanUseSkill_first in Hcan.
    destruct (first_with_id 0 (skills self) id) as [[i skill]|] eqn:F;
      [|discriminate].
    destruct (first_with_id_Some _ _ _ _ _ F) as (_ & Hi & Hid & _).
    rewrite Nat.sub_0_r in Hi.
    exists i, skill. repeat split; auto.
    + simpl. apply list_lookup_insert_eq. apply (lookup_lt_Some _ _ _ Hi).
    + intros k Hk. simpl. apply list_lookup_insert_ne. congruence.
  - intros H. apply Hfalse. rewrite CanUseSkill_first.
    apply (first_with_id_None _ _ 0) in H. rewrite H. reflexivity.
  - intros i skill F H. apply Hfalse. rewrite CanUseSkill_first, F.
    unfold usable. rewrite H. reflexivity.
  - intros i skill F H. apply Hfalse. rewrite CanUseSkill_first, F.
    unfold usable. rewrite H. apply andb_false_r.
  - intros i skill F H. rewrite (UseSkill_first self id), F.
    destruct (CanUseSkill self id) eqn:Hcan;
      [|rewrite UseSkill_first, Hcan; reflexivity].
    rewrite UseSkill_first.
    assert (C : CanUseSkill (committed self i skill) id = false).
    { rewrite CanUseSkill_first. simpl.
      replace i with (i - 0) at 1 by lia.
      rewrite (first_with_id_insert _ id 0 i skill (reset_cooldown skill) F).
      - unfold usable. simpl. rewrite H. reflexivity.
      - simpl. apply (first_with_id_Some _ _ _ _ _ F). }
    rewrite C. reflexivity.
Qed.

(** The scenario of the specification: cooldown 5, mana cost 20, mana 100. *)
Lemma UseSkill_iff_CanUseSkill_witness :
  let skill := mkSkill 7 (of_int 5) lit_0 (of_int 20) (of_int 40) true in
  let self := mk [skill] lit_100 lit_100 in
  UseSkill self 7 = mk [reset_cooldown skill] (of_int 80) lit_100 /\
  UseSkill (UseSkill self 7) 7 = UseSkill self 7 /\
  UseSkill self 8 = self /\
  CanUseSkill (UpdateCooldowns (UseSkill self 7) (of_int 5)) 7 = true.
Proof.
  cbv zeta.
  set (skill := mkSkill 7 (of_int 5) lit_0 (of_int 20) (of_int 40) true).
  set (self := mk [skill] lit_100 lit_100).
  destruct (UseSkill_iff_CanUseSkill self 7) as (Hcommit & _ & _ & _ & _ & Hagain).
  destruct (UseSkill_iff_CanUseSkill self 8) as (_ & _ & Hunknown & _).
  split; [|split; [|split]].
  - destruct (Hcommit eq_refl) as (i & sk & Hi & _ & -> & _).
    destruct i as [|i]; simpl in Hi; [|discriminate Hi].
    injection Hi as <-. reflexivity.
  - apply (Hagain 0%nat skill); reflexivity.
  - apply Hunknown. intros sk Hin. apply list_elem_of_singleton in Hin. subst sk.
    simpl. lia.
  - reflexivity.
Defined.

(** Outside the data model of the ledger the test of [CanUseSkill] reads
    differently: with a negative cooldownRemaining id 2 is usable although
    no skill with id 2 has cooldownRemaining 0, and with id 1 stored twice
    it is not usable although a later skill with id 1 is ready and
    affordable.  Neither ledger can be built through the class. *)
Lemma CanUseSkill_outside_data_model :
  let self := mk [mkSkill 1 (of_int 5) (of_int 5) (of_int 20) (of_int 40) true;
                  mkSkill 1 (of_int 5) lit_0 (of_int 20) (of_int 40) true;
                  mkSkill 2 (of_int 5) (of_int (-1)) (of_int 20) (of_int 40) true]
                 lit_100 lit_100 in
  invariant self = false /\
  ~ NoDup (map skillId (skills self)) /\
  (CanUseSkill self 2 = true /\
   ~ (exists skill, skill ∈ skills self /\ skillId skill = 2%Z /\
        feq (cooldownRemaining skill) lit_0 = true /\
        fle (manaCost skill) (currentMana self) = true)) /\
  (CanUseSkill self 1 = false /\
   exists skill, skill ∈ skills self /\ skillId skill = 1%Z /\
     feq (cooldownRemaining skill) lit_0 = true /\
     fle (manaCost skill) (currentMana self) = true).
Proof.
  cbv zeta. split; [reflexivity|]. split.
  { simpl. intros N. apply NoDup_cons in N as (N & _). apply N.
    apply list_elem_of_here. }
  split; split; try reflexivity.
  - intros (skill & Hin & Hid & Hcd & _). simpl in Hin.
    repeat (apply elem_of_cons in Hin as [->|Hin]; try discriminate).
    inversion Hin.
  - eexists. split; [apply list_elem_of_further, list_elem_of_here|].
    repeat split.
Qed.

(** C8.  On a ledger of the data model (an id keys one skill, no
    cooldownRemaining is negative) [CanUseSkill] returns true iff the
    ledger contains a skill with that id whose cooldownRemaining is 0 and
    whose manaCost is at most currentMana.  For an id that is not in the
    ledger it returns false; the call only returns this boolean, so an
    absent skill and an unusable one give the same answer.  The code
    decides on the first skill with the id, by cooldownRemaining <= 0 and
    manaCost <= currentMana, which on the data model is the same test. *)
Theorem CanUseSkill_iff_ready (self : t) (id : Z) :
  (NoDup (map skillId (skills self)) ->
   (forall skill, skill ∈ skills self ->
      fle lit_0 (cooldownRemaining skill) = true) ->
   (CanUseSkill self id = true <->
      exists skill, skill ∈ skills self /\ skillId skill = id /\
        feq (cooldownRemaining skill) lit_0 = true /\
        fle (manaCost skill) (currentMana self) = true)) /\
  ((forall skill, skill ∈ skills self -> skillId skill <> id) ->
     CanUseSkill self id = false) /\
  (CanUseSkill self id = true <->
     exists i skill, first_with_id 0 (skills self) id = Some (i, skill) /\
       fle (cooldownRemaining skill) lit_0 = true /\
       fle (manaCost skill) (currentMana self) = true).
Proof.
  assert (Hfirst : CanUseSkill self id = true <->
     exists i skill, first_with_id 0 (skills self) id = Some (i, skill) /\
       fle (cooldownRemaining skill) lit_0 = true /\
       fle (manaCost skill) (currentMana self) = true).
  { rewrite CanUseSkill_first. unfold usable. split.
    - destruct (first_with_id 0 (skills self) id) as [[i skill]|];
        [|discriminate].
      intros H. apply andb_true_iff in H. exists i, skill. tauto.
    - intros (i & skill & -> & H1 & H2). rewrite H1, H2. reflexivity. }
  split; [|split; [|exact Hfirst]].
  - intros Hnd Hpos. rewrite Hfirst. split.
    + intros (i & skill & F & H1 & H2).
      destruct (first_with_id_Some _ _ _ _ _ F) as (_ & Hi & Hid & _).
      rewrite Nat.sub_0_r in Hi.
      assert (Hin : skill ∈ skills self).
      { apply list_elem_of_lookup. exists i. exact Hi. }
      exists skill. repeat split; auto.
      apply fle_antisym; auto.
    + intros (skill & Hin & Hid & H1 & H2).
      destruct (first_with_id 0 (skills self) id) as [[i found]|] eqn:F.
      * rewrite (first_with_id_unique _ _ _ _ _ Hnd F Hin Hid) in *.
        exists i, found. repeat split; auto. apply feq_fle, H1.
      * exfalso. apply (proj1 (first_with_id_None _ _ 0) F skill Hin Hid).
  - intros H. rewrite CanUseSkill_first.
    apply (first_with_id_None _ _ 0) in H. rewrite H. reflexivity.
Qed.

Lemma CanUseSkill_iff_ready_witness :
  let ready := mkSkill 7 (of_int 5) lit_0 (of_int 20) (of_int 40) true in
  let cooling := mkSkill 9 (of_int 5) (of_int 3) (of_int 20) (of_int 40) true in
  let self := mk [cooling; ready] lit_100 lit_100 in
  invariant self = true /\
  CanUseSkill self 7 = true /\
  CanUseSkill self 9 = false /\
  CanUseSkill self 8 = false.
Proof.
  cbv zeta.
  set (ready := mkSkill 7 (of_int 5) lit_0 (of_int 20) (of_int 40) true).
  set (cooling := mkSkill 9 (of_int 5) (of_int 3) (of_int 20) (of_int 40) true).
  set (self := mk [cooling; ready] lit_100 lit_100).
  assert (Hnd : NoDup (map skillId (skills self))).
  { simpl. apply NoDup_cons. split.
    - intros Hin. apply list_elem_of_singleton in Hin. discriminate Hin.
    - apply NoDup_singleton. }
  assert (Hpos : forall skill, skill ∈ skills self ->
                   fle lit_0 (cooldownRemaining skill) = true).
  { intros sk Hin. simpl in Hin.
    apply elem_of_cons in Hin as [->|Hin]; [reflexivity|].
    apply list_elem_of_singleton in Hin. subst sk. reflexivity. }
  destruct (CanUseSkill_iff_ready self 7) as (Hready & _).
  destruct (CanUseSkill_iff_ready self 9) as (Hcooling & _).
  destruct (CanUseSkill_iff_ready self 8) as (_ & Hunknown & _).
  split; [reflexivity|]. split; [|split].
  - apply (Hready Hnd Hpos).
    exists ready. split; [apply list_elem_of_further, list_elem_of_here|].
    split; [reflexivity|]. split; reflexivity.
  - destruct (CanUseSkill self 9) eqn:E; [|reflexivity].
    destruct (proj1 (Hcooling Hnd Hpos) eq_refl) as (sk & Hin & Hid & Hcd & _).
    simpl in Hin. apply elem_of_cons in Hin as [->|Hin];
      [discriminate Hcd|].
    apply list_elem_of_singleton in Hin. subst sk. discriminate Hid.
  - apply Hunknown. intros sk Hin. simpl in Hin.
    apply elem_of_cons in Hin as [->|Hin]; [simpl; lia|].
    apply list_elem_of_singleton in Hin. subst sk. simpl. lia.
Defined.

(** One skill, one tick of the cooldown clock. *)
Lemma tick_cooldown_ok (deltaTime : float) (skill : Skill) :
  skill_wf skill = true -> skill_ok skill = true ->
  is_float deltaTime -> fle lit_0 deltaTime = true ->
  skill_ok (tick_cooldown deltaTime skill) = true /\
  skill_wf (tick_cooldown deltaTime skill) = true.
Proof.
  unfold skill_wf, skill_ok. intros Hwf Hok Vd Hd.
  apply andb_true_iff in Hwf as [Hwf Vc]. apply andb_true_iff in Hwf as [Vcd Vcr].
  apply andb_true_iff in Hok as [H0 Hcd]. simpl.
  split; apply andb_true_iff; split.
  - apply std_max_lower. reflexivity.
  - destruct (std_max_cases lit_0 (fsub (cooldownRemaining skill) deltaTime))
      as [[Hpos ->]|[_ ->]].
    + apply (fle_trans _ (cooldownRemaining skill)); [|exact Hcd].
      apply fsub_le; assumption.
    + apply (fle_trans _ (cooldownRemaining skill)); assumption.
  - rewrite Vcd. apply std_max_valid; [reflexivity|].
    apply fsub_valid; assumption.
  - exact Vc.
Qed.

Lemma UpdateCooldowns_preserves (self : t) (deltaTime : float) :
  well_formed self = true -> invariant self = true ->
  is_float deltaTime -> fle lit_0 deltaTime = true ->
  invariant (UpdateCooldowns self deltaTime) = true /\
  well_formed (UpdateCooldowns self deltaTime) = true.
Proof.
  unfold well_formed, invariant. intros Hwf Hinv Vd Hd.
  apply andb_true_iff in Hwf as [Hwf Vmax]. apply andb_true_iff in Hwf as [Hwf Vm].
  apply andb_true_iff in Hinv as [Hinv Hmana].
  rewrite forallb_forall in Hwf, Hinv. simpl.
  assert (A : forall skill', In skill' (map (tick_cooldown deltaTime) (skills self)) ->
            skill_ok skill' = true /\ skill_wf skill' = true).
  { intros skill' Hin. apply in_map_iff in Hin as (skill & <- & Hin).
    apply tick_cooldown_ok; auto. }
  split.
  - apply andb_true_iff. split; [|exact Hmana].
    apply forallb_forall. intros x Hx. apply (A x Hx).
  - rewrite Vm, Vmax, !andb_true_r.
    apply forallb_forall. intros x Hx. apply (A x Hx).
Qed.

Lemma RegenerateMana_preserves (self : t) (regenRate deltaTime : float) :
  well_formed self = true -> invariant self = true ->
  is_float regenRate -> is_float deltaTime ->
  fle lit_0 regenRate = true -> fle lit_0 deltaTime = true ->
  invariant (RegenerateMana self regenRate deltaTime) = true /\
  well_formed (RegenerateMana self regenRate deltaTime) = true.
Proof.
  unfold well_formed, invariant, mana_ok. intros Hwf Hinv Vr Vd Hr Hd.
  apply andb_true_iff in Hwf as [Hwf Vmax]. apply andb_true_iff in Hwf as [Hwf Vm].
  apply andb_true_iff in Hinv as [Hinv Hmana].
  apply andb_true_iff in Hmana as [H0 Hmax]. simpl.
  set (sum := fadd (currentMana self) (fmul regenRate deltaTime)).
  assert (Hn : is_nan (maxMana self) = false) by apply (fle_not_nan_r _ _ Hmax).
  split.
  - rewrite Hinv. simpl. apply andb_true_iff. split.
    + destruct (std_min_cases (maxMana self) sum) as [[Hlt ->]|[_ ->]].
      * assert (Hs : is_nan sum = false) by apply (fle_not_nan_l _ _ (flt_fle _ _ Hlt)).
        destruct (fmul_nonneg _ _ Hr Hd) as [Np|Pp].
        -- unfold sum in Hs. destruct (fmul regenRate deltaTime); try discriminate.
           rewrite fadd_nan_r in Hs. discriminate.
        -- destruct (fadd_nonneg _ _ H0 Pp) as [Ns|Ps]; [|exact Ps].
           fold sum in Ns. congruence.
      * apply (fle_trans _ (currentMana self)); assumption.
    + apply std_min_upper, Hn.
  - rewrite Hwf, Vmax. simpl. rewrite andb_true_r.
    apply std_min_valid; [exact Vmax|].
    apply fadd_valid; [exact Vm|]. apply fmul_valid; assumption.
Qed.

Lemma tick_preserves (self : t) (k : Tick) :
  well_formed self = true -> invariant self = true -> tick_ok k = true ->
  invariant (tick self k) = true /\ well_formed (tick self k) = true.
Proof.
  intros Hwf Hinv Hk. destruct k as [deltaTime|regenRate deltaTime]; simpl in *.
  - apply andb_true_iff in Hk as [Vd Hd]. apply UpdateCooldowns_preserves; auto.
  - apply andb_true_iff in Hk as [Hk Hd]. apply andb_true_iff in Hk as [Hk Hr].
    apply andb_true_iff in Hk as [Vr Vd].
    apply RegenerateMana_preserves; auto.
Qed.

Lemma run_preserves (ks : list Tick) (self : t) :
  well_formed self = true -> invariant self = true ->
  forallb tick_ok ks = true ->
  invariant (run self ks) = true /\ well_formed (run self ks) = true.
Proof.
  revert self. induction ks as [|k ks IH]; intros self Hwf Hinv Hks; simpl.
  - auto.
  - simpl in Hks. apply andb_true_iff in Hks as [Hk Hks].
    destruct (tick_preserves self k Hwf Hinv Hk) as [Hinv' Hwf'].
    apply IH; assumption.
Qed.

(** The two clamps alone, with no assumption on the arguments of the calls:
    along any run no cooldown goes below 0 and mana never goes above
    maxMana. *)
Lemma run_clamped (ks : list Tick) (self : t) :
  (forall skill, skill ∈ skills self ->
     fle lit_0 (cooldownRemaining skill) = true) ->
  fle (currentMana self) (maxMana self) = true ->
  (forall skill, skill ∈ skills (run self ks) ->
     fle lit_0 (cooldownRemaining skill) = true) /\
  fle (currentMana (run self ks)) (maxMana (run self ks)) = true.
Proof.
  revert self. induction ks as [|k ks IH]; intros self Hs Hm; simpl.
  - auto.
  - apply IH; destruct k as [deltaTime|regenRate deltaTime]; simpl; auto.
    + intros skill Hin. apply list_elem_of_fmap in Hin as (old & -> & _).
      simpl. apply std_max_lower. reflexivity.
    + apply std_min_upper. apply (fle_not_nan_r _ _ Hm).
Qed.

(** What the invariant says about each skill and about mana. *)
Lemma invariant_bounds (self : t) :
  invariant self = true ->
  (forall skill, skill ∈ skills self ->
     fle lit_0 (cooldownRemaining skill) = true /\
     fle (cooldownRemaining skill) (cooldown skill) = true) /\
  fle lit_0 (currentMana self) = true /\
  fle (currentMana self) (maxMana self) = true.
Proof.
  unfold invariant, mana_ok. intros H.
  apply andb_true_iff in H as [Hs Hm]. apply andb_true_iff in Hm as [H0 Hmax].
  rewrite forallb_forall in Hs. repeat split; auto.
  - apply list_elem_of_In in H. apply Hs in H. unfold skill_ok in H.
    apply andb_true_iff in H. tauto.
  - apply list_elem_of_In in H. apply Hs in H. unfold skill_ok in H.
    apply andb_true_iff in H. tauto.
Qed.

(** C6.  On a ledger of binary32 values that satisfies
    0 <= cooldownRemaining <= cooldown for every skill and
    0 <= currentMana <= maxMana, with deltaTime >= 0 and rate >= 0:
    [UpdateCooldowns] sets each skill's cooldownRemaining to
    max(0, cooldownRemaining - deltaTime) and changes nothing else;
    [RegenerateMana] sets currentMana to
    min(maxMana, currentMana + rate * deltaTime) and changes nothing else;
    both preserve the invariant; and after any sequence of such calls the
    invariant still holds, so no cooldown is below 0 and mana is not above
    maxMana. *)
Theorem ticks_preserve_invariant (self : t) (deltaTime regenRate : float) :
  well_formed self = true -> invariant self = true ->
  is_float deltaTime -> is_float regenRate ->
  fle lit_0 deltaTime = true -> fle lit_0 regenRate = true ->
  (skills (UpdateCooldowns self deltaTime)
     = map (tick_cooldown deltaTime) (skills self) /\
   (forall i skill, skills self !! i = Some skill ->
      exists skill', skills (UpdateCooldowns self deltaTime) !! i = Some skill' /\
        let rest := fsub (cooldownRemaining skill) deltaTime in
        (flt lit_0 rest = true -> cooldownRemaining skill' = rest) /\
        (flt lit_0 rest = false -> cooldownRemaining skill' = lit_0) /\
        fle lit_0 (cooldownRemaining skill') = true /\
        flt (cooldownRemaining skill') rest = false /\
        skillId skill' = skillId skill /\ cooldown skill' = cooldown skill /\
        manaCost skill' = manaCost skill /\ damage skill' = damage skill /\
        isActive skill' = isActive skill) /\
   currentMana (UpdateCooldowns self deltaTime) = currentMana self /\
   maxMana (UpdateCooldowns self deltaTime) = maxMana self) /\
  (let sum := fadd (currentMana self) (fmul regenRate deltaTime) in
   let mana' := currentMana (RegenerateMana self regenRate deltaTime) in
   (flt sum (maxMana self) = true -> mana' = sum) /\
   (flt sum (maxMana self) = false -> mana' = maxMana self) /\
   fle mana' (maxMana self) = true /\
   flt sum mana' = false /\
   skills (RegenerateMana self regenRate deltaTime) = skills self /\
   maxMana (RegenerateMana self regenRate deltaTime) = maxMana self) /\
  invariant (UpdateCooldowns self deltaTime) = true /\
  well_formed (UpdateCooldowns self deltaTime) = true /\
  invariant (RegenerateMana self regenRate deltaTime) = true /\
  well_formed (RegenerateMana self regenRate deltaTime) = true /\
  (forall ks, forallb tick_ok ks = true ->
     invariant (run self ks) = true /\
     (forall skill, skill ∈ skills (run self ks) ->
        fle lit_0 (cooldownRemaining skill) = true) /\
     fle (currentMana (run self ks)) (maxMana (run self ks)) = true).
Proof.
  intros Hwf Hinv Vd Vr Hd Hr.
  destruct (UpdateCooldowns_preserves self deltaTime Hwf Hinv Vd Hd) as [I1 W1].
  destruct (RegenerateMana_preserves self regenRate deltaTime Hwf Hinv Vr Vd Hr Hd)
    as [I2 W2].
  destruct (invariant_bounds _ I2) as (_ & _ & Hmax2).
  split; [|split; [|repeat (split; [assumption|])]].
  - split; [reflexivity|]. split; [|split; reflexivity].
    intros i skill Hi. exists (tick_cooldown deltaTime skill). split.
    { simpl. rewrite list_lookup_fmap, Hi. reflexivity. }
    cbv zeta. simpl.
    destruct (std_max_cases lit_0 (fsub (cooldownRemaining skill) deltaTime))
      as [[H ->]|[H ->]]; rewrite H.
    + repeat split; auto; try discriminate.
      * apply flt_fle, H.
      * apply flt_irrefl.
    + repeat split; auto; discriminate.
  - cbv zeta. simpl in Hmax2 |- *.
    destruct (std_min_cases (maxMana self)
                (fadd (currentMana self) (fmul regenRate deltaTime)))
      as [[H E]|[H E]]; rewrite E in *; rewrite H.
    + repeat split; auto; try discriminate. apply flt_irrefl.
    + repeat split; auto; discriminate.
  - intros ks Hks.
    destruct (run_preserves ks self Hwf Hinv Hks) as [I _].
    destruct (invariant_bounds _ I) as (Hs & _ & Hm).
    repeat split; auto. intros skill Hin. apply (Hs skill Hin).
Qed.

Lemma ticks_preserve_invariant_witness :
  let skill := mkSkill 7 (of_int 5) (of_int 5) (of_int 20) (of_int 40) true in
  let self := mk [skill] (of_int 80) lit_100 in
  invariant (UpdateCooldowns self (of_int 2)) = true /\
  invariant (RegenerateMana self (of_int 3) (of_int 2)) = true /\
  currentMana (RegenerateMana self (of_int 3) (of_int 2)) = of_int 86 /\
  currentMana (RegenerateMana self (of_int 30) (of_int 2)) = lit_100 /\
  invariant (run self [TickCooldowns (of_int 2); TickMana (of_int 30) (of_int 2);
                       TickCooldowns (of_int 10)]) = true.
Proof.
  cbv zeta.
  set (skill := mkSkill 7 (of_int 5) (of_int 5) (of_int 20) (of_int 40) true).
  set (self := mk [skill] (of_int 80) lit_100).
  destruct (ticks_preserve_invariant self (of_int 2) (of_int 3)
              eq_refl eq_refl eq_refl eq_refl eq_refl eq_refl)
    as (_ & (Hsum & _) & I1 & _ & I2 & _ & Hrun).
  destruct (ticks_preserve_invariant self (of_int 2) (of_int 30)
              eq_refl eq_refl eq_refl eq_refl eq_refl eq_refl)
    as (_ & (_ & Hcap & _) & _).
  split; [exact I1|]. split; [exact I2|].
  split; [rewrite Hsum; reflexivity|].
  split; [rewrite Hcap; reflexivity|].
  apply (Hrun [TickCooldowns (of_int 2); TickMana (of_int 30) (of_int 2);
               TickCooldowns (of_int 10)]).
  reflexivity.
Defined.

End SkillSystemFacts.

(** ** More on rounding: values, lower bounds, signs of the operations *)

Module Float32Order.
Import Float32Facts Float32Rounding.

Local Open Scope Z_scope.

(** Rounding a non-negative mantissa never yields a NaN. *)
Lemma binary_round_aux_not_nan (s : bool) (m e : Z) (l : location) :
  0 <= m -> is_nan (binary_round_aux prec emax s m e l) = false.
Proof.
  intros Hm.
  destruct (binary_round_aux_cases s m e l Hm) as (m2 & B & ->).
  set (n1 := Z.max 0 (fexp prec emax (Zdigits2 m + e) - e)) in *.
  set (n2 := Z.max 0 _).
  assert (0 <= m / 2 ^ n1)
    by (apply Z.div_pos; [lia|apply Z.pow_pos_nonneg; unfold n1; lia]).
  assert (0 <= m2 / 2 ^ n2)
    by (apply Z.div_pos; [lia|apply Z.pow_pos_nonneg; unfold n2; lia]).
  destruct (m2 / 2 ^ n2); [reflexivity| |lia].
  destruct (_ <=? _); reflexivity.
Qed.

Lemma binary_round_not_nan (s : bool) (m : positive) (e : Z) :
  is_nan (binary_round prec emax s m e) = false.
Proof.
  unfold binary_round. destruct (shl_align m e _) as [mz ez].
  apply binary_round_aux_not_nan. lia.
Qed.

Lemma binary_normalize_not_nan (m e : Z) (s : bool) :
  is_nan (binary_normalize prec emax m e s) = false.
Proof. destruct m; simpl; [reflexivity|apply binary_round_not_nan..]. Qed.

(** A value of the format has at most 24 digits, and exactly 24 unless its
    exponent is the smallest one. *)
Lemma bounded_digits (m : positive) (e : Z) :
  bounded prec emax m e = true ->
  Zpos m < 2 ^ 24 /\ -149 <= e /\ (-149 < e -> 2 ^ 23 <= Zpos m).
Proof.
  intros Hb. destruct (bounded_spec _ _ Hb) as [Hc _].
  rewrite fexp_eq, Zdigits2_pos in Hc.
  pose proof (Z.log2_nonneg (Zpos m)).
  split; [|split].
  - apply Z.log2_lt_pow2; lia.
  - lia.
  - intros He. apply Z.log2_le_pow2; lia.
Qed.

(** On positive values of the format, [<=] is the order of the values
    [m * 2 ^ e], here scaled to the smaller of the two exponents. *)
Lemma fle_finite_value (mx my : positive) (ex ey : Z) :
  bounded prec emax mx ex = true -> bounded prec emax my ey = true ->
  fle (S754_finite false mx ex) (S754_finite false my ey) = true ->
  Zpos mx * 2 ^ (ex - Z.min ex ey) <= Zpos my * 2 ^ (ey - Z.min ex ey).
Proof.
  intros Hx Hy. destruct (bounded_digits _ _ Hx) as (Ux & Lx & _).
  destruct (bounded_digits _ _ Hy) as (_ & _ & Ny).
  unfold fle, SFleb. simpl.
  change (Pos.compare_cont Eq mx my) with (Pos.compare mx my).
  destruct (Z.compare_spec ex ey) as [E|L|G]; [| |discriminate].
  - subst ey. rewrite Z.min_id, Z.sub_diag. simpl.
    destruct (Pos.compare_spec mx my); try discriminate; lia.
  - intros _. replace (Z.min ex ey) with ex by lia. rewrite Z.sub_diag.
    assert (2 ^ 1 <= 2 ^ (ey - ex)) by (apply Z.pow_le_mono_r; lia).
    change (2 ^ 1) with 2 in H. simpl (2 ^ 0).
    assert (2 ^ 23 <= Zpos my) by (apply Ny; lia).
    change (2 ^ 24) with 16777216 in Ux. change (2 ^ 23) with 8388608 in H0.
    nia.
Qed.

(** Rounding a number that lies at or above a positive value of the format
    gives at least that value.  [mx * 2 ^ ex] is that value throughout. *)
Section RoundAbove.

Variables (mx : positive) (ex : Z).
Hypothesis Hb : bounded prec emax mx ex = true.

Lemma binary_round_aux_ge (m : positive) (e : Z) (l : location) :
  Zpos mx * 2 ^ (ex - Z.min e ex) <= Zpos m * 2 ^ (e - Z.min e ex) ->
  fle (S754_finite false mx ex)
      (binary_round_aux prec emax false (Zpos m) e l) = true.
Proof.
  intros Hge. destruct (bounded_spec _ _ Hb) as [Hc Hmax].
  destruct (bounded_digits _ _ Hb) as (_ & Hmin & _).
  destruct (binary_round_aux_cases false (Zpos m) e l) as (m2 & B & ->); [lia|].
  set (n1 := Z.max 0 (fexp prec emax (Zdigits2 (Zpos m) + e) - e)) in *.
  set (e1 := e + n1) in *.
  set (n2 := Z.max 0 (fexp prec emax (Zdigits2 m2 + e1) - e1)).
  assert (Hn1 : 0 <= n1) by (unfold n1; lia).
  assert (Hn2 : 0 <= n2) by (unfold n2; lia).
  assert (P1 : 0 < 2 ^ n1) by (apply Z.pow_pos_nonneg; lia).
  assert (P2 : 0 < 2 ^ n2) by (apply Z.pow_pos_nonneg; lia).
  (* the number has at least as many digits, counted from the binary point *)
  assert (D : Zdigits2 (Zpos mx) + ex <= Zdigits2 (Zpos m) + e).
  { assert (Zdigits2 (Zpos mx * 2 ^ (ex - Z.min e ex))
            <= Zdigits2 (Zpos m * 2 ^ (e - Z.min e ex))).
    { apply Zdigits2_mono. split; [|exact Hge].
      apply Z.mul_nonneg_nonneg; [lia|]. apply Z.pow_nonneg. lia. }
    rewrite !Zdigits2_mul_pow2 in H by lia. lia. }
  assert (E1 : ex <= e1).
  { pose proof (fexp_mono _ _ D). unfold e1, n1. lia. }
  (* the shifted mantissa is positive *)
  assert (M1 : 0 < Zpos m / 2 ^ n1).
  { apply Z.div_str_pos. split; [exact P1|].
    assert (n1 = 0 \/ 0 < n1) as [->|Hp] by lia; [simpl; lia|].
    apply Z.log2_le_pow2; [lia|].
    pose proof (fexp_eq (Zdigits2 (Zpos m) + e)) as F1.
    pose proof (Zdigits2_pos m) as Dm. pose proof (Zdigits2_pos mx) as Dmx.
    pose proof (Z.log2_nonneg (Zpos mx)). unfold n1 in *. lia. }
  assert (M2 : 0 < m2) by lia.
  assert (M3 : 0 < m2 / 2 ^ n2).
  { apply Z.div_str_pos. split; [exact P2|].
    assert (n2 = 0 \/ 0 < n2) as [->|Hp] by lia; [simpl; lia|].
    apply Z.log2_le_pow2; [lia|].
    destruct m2 as [|p2|p2]; try lia.
    pose proof (fexp_eq (Zdigits2 (Zpos p2) + e1)) as F2.
    pose proof (Zdigits2_pos p2) as Dp. unfold n2 in *. lia. }
  destruct (m2 / 2 ^ n2) as [|p|p] eqn:Q; try lia.
  destruct (e1 + n2 <=? emax - prec); [|reflexivity].
  unfold fle, SFleb. simpl.
  change (Pos.compare_cont Eq mx p) with (Pos.compare mx p).
  destruct (Z.compare_spec ex (e1 + n2)) as [Heq|Hl|Hg]; [|reflexivity|lia].
  assert (n2 = 0) by lia. assert (e1 = ex) by lia.
  assert (Hp : Zpos mx <= Zpos p).
  { rewrite <- Q, H. simpl (2 ^ 0). rewrite Z.div_1_r.
    apply Z.le_trans with (Zpos m / 2 ^ n1); [|lia].
    assert (e <= ex) by (unfold e1 in *; lia).
    replace (Z.min e ex) with e in Hge by lia.
    rewrite Z.sub_diag in Hge. simpl (2 ^ 0) in Hge.
    replace (ex - e) with n1 in Hge by (unfold e1 in *; lia).
    apply Z.div_le_lower_bound; lia. }
  destruct (Pos.compare_spec mx p); try reflexivity. lia.
Qed.

Lemma binary_round_ge (d : positive) (ez : Z) :
  Zpos mx * 2 ^ (ex - Z.min ez ex) <= Zpos d * 2 ^ (ez - Z.min ez ex) ->
  fle (S754_finite false mx ex) (binary_round prec emax false d ez) = true.
Proof.
  intros Hge. unfold binary_round.
  destruct (shl_align_spec d ez (fexp prec emax (Zpos (digits2_pos d) + ez)))
    as [Hs Hf].
  destruct (shl_align d ez _) as [mz e0]. simpl in Hs, Hf.
  apply binary_round_aux_ge. rewrite Hf.
  assert (He0 : e0 <= ez) by lia.
  set (z := Z.min ez ex) in *. set (z0 := Z.min e0 ex).
  assert (z0 <= z) by (unfold z, z0; lia).
  assert (P : 0 < 2 ^ (z - z0)) by (apply Z.pow_pos_nonneg; lia).
  assert (A : 2 ^ (ex - z0) = 2 ^ (ex - z) * 2 ^ (z - z0)).
  { rewrite <- Z.pow_add_r by (unfold z, z0 in *; lia). f_equal. lia. }
  assert (B : 2 ^ (ez - e0) * 2 ^ (e0 - z0) = 2 ^ (ez - z) * 2 ^ (z - z0)).
  { rewrite <- !Z.pow_add_r by (unfold z, z0 in *; lia). f_equal. lia. }
  rewrite A, <- Z.mul_assoc, B, !Z.mul_assoc.
  apply Z.mul_le_mono_nonneg_r; [lia|exact Hge].
Qed.

End RoundAbove.

(** Rounding, from any position between two mantissas, a number that lies
    below a positive value of the format gives at most that value. *)
Lemma binary_round_aux_below (mx : positive) (ex : Z) (m e0 : Z) (l : location) :
  bounded prec emax mx ex = true ->
  0 <= m -> e0 <= ex -> m < Zpos mx * 2 ^ (ex - e0) ->
  fle (binary_round_aux prec emax false m e0 l) (S754_finite false mx ex) = true.
Proof.
  intros Hb Hm He Hlt. destruct (bounded_spec _ _ Hb) as [Hc Hmax].
  destruct (binary_round_aux_cases false m e0 l Hm) as (m2 & B & ->).
  set (n1 := Z.max 0 (fexp prec emax (Zdigits2 m + e0) - e0)) in *.
  set (e1 := e0 + n1) in *.
  set (n2 := Z.max 0 (fexp prec emax (Zdigits2 m2 + e1) - e1)).
  assert (Hn1 : 0 <= n1) by (unfold n1; lia).
  assert (Hn2 : 0 <= n2) by (unfold n2; lia).
  assert (P1 : 0 < 2 ^ n1) by (apply Z.pow_pos_nonneg; lia).
  assert (P2 : 0 < 2 ^ n2) by (apply Z.pow_pos_nonneg; lia).
  assert (D : Zdigits2 m + e0 <= Zdigits2 (Zpos mx) + ex).
  { assert (Zdigits2 m <= Zdigits2 (Zpos mx * 2 ^ (ex - e0)))
      by (apply Zdigits2_mono; lia).
    rewrite Zdigits2_mul_pow2 in H by lia. lia. }
  assert (E1 : e1 <= ex).
  { pose proof (fexp_mono _ _ D). unfold e1, n1. lia. }
  assert (P3 : 0 < 2 ^ (ex - e1)) by (apply Z.pow_pos_nonneg; lia).
  assert (Hscale : Zpos mx * 2 ^ (ex - e0) = 2 ^ n1 * (Zpos mx * 2 ^ (ex - e1))).
  { replace (ex - e0) with (n1 + (ex - e1)) by (unfold e1; lia).
    rewrite Z.pow_add_r by lia. lia. }
  assert (M1 : m / 2 ^ n1 < Zpos mx * 2 ^ (ex - e1)).
  { apply Z.div_lt_upper_bound; [exact P1|]. rewrite <- Hscale. exact Hlt. }
  assert (M0 : 0 <= m / 2 ^ n1) by (apply Z.div_pos; lia).
  assert (M2 : 0 <= m2 <= Zpos mx * 2 ^ (ex - e1)) by lia.
  assert (E2 : e1 + n2 <= ex).
  { assert (Zdigits2 m2 <= Zdigits2 (Zpos mx * 2 ^ (ex - e1)))
      by (apply Zdigits2_mono; lia).
    rewrite Zdigits2_mul_pow2 in H by lia.
    assert (Zdigits2 m2 + e1 <= Zdigits2 (Zpos mx) + ex) as D2 by lia.
    pose proof (fexp_mono _ _ D2). unfold n2. lia. }
  assert (M3 : 0 <= m2 / 2 ^ n2) by (apply Z.div_pos; lia).
  destruct (m2 / 2 ^ n2) as [|p|p] eqn:Q; [reflexivity| |lia].
  change (emax - prec) with 104.
  replace (e1 + n2 <=? 104) with true by (symmetry; apply Z.leb_le; lia).
  unfold fle, SFleb. simpl.
  change (Pos.compare_cont Eq p mx) with (Pos.compare p mx).
  destruct (Z.compare_spec (e1 + n2) ex) as [Heq|Hl|Hg]; [|reflexivity|lia].
  assert (Hp : Zpos p <= Zpos mx).
  { rewrite <- Q. replace n2 with (ex - e1) by lia.
    apply Z.le_trans with (Zpos mx * 2 ^ (ex - e1) / 2 ^ (ex - e1));
      [apply Z.div_le_mono; lia|rewrite Z.div_mul by lia; lia]. }
  destruct (Pos.compare_spec p mx); try reflexivity. lia.
Qed.

(** The strict order on positive values of the format is the strict order
    of the values. *)
Lemma flt_finite_value (mx my : positive) (ex ey : Z) :
  bounded prec emax mx ex = true -> bounded prec emax my ey = true ->
  flt (S754_finite false mx ex) (S754_finite false my ey) = true ->
  Zpos mx * 2 ^ (ex - Z.min ex ey) < Zpos my * 2 ^ (ey - Z.min ex ey).
Proof.
  intros Hx Hy. destruct (bounded_digits _ _ Hx) as (Ux & Lx & _).
  destruct (bounded_digits _ _ Hy) as (_ & _ & Ny).
  unfold flt, SFltb. simpl.
  change (Pos.compare_cont Eq mx my) with (Pos.compare mx my).
  destruct (Z.compare_spec ex ey) as [E|L|G]; [| |discriminate].
  - subst ey. rewrite Z.min_id, Z.sub_diag. simpl.
    destruct (Pos.compare_spec mx my); try discriminate; lia.
  - intros _. replace (Z.min ex ey) with ex by lia. rewrite Z.sub_diag.
    assert (2 ^ 1 <= 2 ^ (ey - ex)) by (apply Z.pow_le_mono_r; lia).
    change (2 ^ 1) with 2 in H. simpl (2 ^ 0).
    assert (2 ^ 23 <= Zpos my) by (apply Ny; lia).
    change (2 ^ 24) with 16777216 in Ux. change (2 ^ 23) with 8388608 in H0.
    nia.
Qed.

(** A positive number divided by itself is exactly 1. *)
Lemma fdiv_self (s : bool) (m : positive) (e : Z) :
  fdiv (S754_finite s m e) (S754_finite s m e) = lit_1.
Proof.
  unfold fdiv, SFdiv, SFdiv_core_binary.
  rewrite !Z.sub_diag. change (fexp prec emax 0) with (-24).
  change (Z.min (-24) 0) with (-24). change (0 - -24) with 24.
  rewrite Z.shiftl_mul_pow2 by lia.
  pose proof (Z_div_mod (Zpos m * 2 ^ 24) (Zpos m) ltac:(lia)) as Hdm.
  assert (Hq : Zpos m * 2 ^ 24 / Zpos m = 2 ^ 24).
  { rewrite Z.mul_comm. apply Z.div_mul. lia. }
  assert (Hr : (Zpos m * 2 ^ 24) mod Zpos m = 0).
  { rewrite Z.mul_comm. apply Z.mod_mul. lia. }
  unfold Z.div in Hq. unfold Z.modulo in Hr.
  destruct (Z.div_eucl (Zpos m * 2 ^ 24) (Zpos m)) as [q r].
  simpl in Hq, Hr. subst q r.
  replace (new_location (Zpos m) 0) with loc_Exact.
  - destruct s; reflexivity.
  - unfold new_location. destruct (Z.even (Zpos m)); reflexivity.
Qed.

(** The quotient of a non-negative value of the format by one that is at
    least as large, positive and finite, is at most 1. *)
Lemma fdiv_le_1 (x y : float) :
  is_float x -> is_float y ->
  fle lit_0 x = true -> fle x y = true -> flt lit_0 y = true ->
  is_finite y = true ->
  fle (fdiv x y) lit_1 = true.
Proof.
  intros Vx Vy Hx Hxy Hy Fy. pose proof (nonneg_signed _ Hx) as Sx.
  pose proof (nonneg_signed _ (flt_fle _ _ Hy)) as Sy.
  destruct x as [sx|sx| |sx mx ex], y as [sy|sy| |sy my ey];
    simpl in Sx, Sy; subst; try contradiction; try discriminate;
    try reflexivity.
  destruct (flt (S754_finite false mx ex) (S754_finite false my ey)) eqn:L.
  - pose proof (flt_finite_value _ _ _ _ Vx Vy L) as Hv.
    unfold fdiv, SFdiv, SFdiv_core_binary.
    set (k := Zdigits2 (Zpos mx) + ex - (Zdigits2 (Zpos my) + ey)).
    set (e' := Z.min (fexp prec emax k) (ex - ey)).
    (* the numerator has no more digits than the denominator *)
    assert (K : k <= 0).
    { set (z := Z.min ex ey) in *.
      assert (Zdigits2 (Zpos mx * 2 ^ (ex - z)) <= Zdigits2 (Zpos my * 2 ^ (ey - z))).
      { apply Zdigits2_mono. split; [|lia].
        apply Z.mul_nonneg_nonneg; [lia|]. apply Z.pow_nonneg. lia. }
      rewrite !Zdigits2_mul_pow2 in H by (unfold z; lia). unfold k. lia. }
    assert (E' : e' <= -24).
    { pose proof (fexp_eq k). unfold e'. lia. }
    assert (S0 : 0 <= ex - ey - e') by (unfold e'; lia).
    set (m' := match ex - ey - e' with
               | 0 => Zpos mx
               | Zpos _ => Z.shiftl (Zpos mx) (ex - ey - e')
               | Zneg _ => 0
               end).
    assert (Hm' : m' = Zpos mx * 2 ^ (ex - ey - e')).
    { unfold m'. destruct (ex - ey - e') as [|p|p] eqn:E; try lia.
      rewrite Z.shiftl_mul_pow2 by lia. reflexivity. }
    clearbody m'.
    pose proof (Z_div_mod m' (Zpos my) ltac:(lia)) as Hdm.
    assert (Hq : m' / Zpos my < 2 ^ (- e')).
    { apply Z.div_lt_upper_bound; [lia|]. rewrite Hm'.
      assert (ex < ey \/ ey <= ex) as [C|C] by lia.
      - replace (Z.min ex ey) with ex in Hv by lia. rewrite Z.sub_diag in Hv.
        simpl (2 ^ 0) in Hv.
        assert (P : 0 < 2 ^ (ex - ey - e')) by (apply Z.pow_pos_nonneg; lia).
        replace (- e') with ((ey - ex) + (ex - ey - e')) by lia.
        rewrite Z.pow_add_r by lia. nia.
      - replace (Z.min ex ey) with ey in Hv by lia. rewrite Z.sub_diag in Hv.
        simpl (2 ^ 0) in Hv.
        assert (P : 0 < 2 ^ (- e')) by (apply Z.pow_pos_nonneg; lia).
        replace (ex - ey - e') with ((ex - ey) + (- e')) by lia.
        rewrite Z.pow_add_r by lia. nia. }
    assert (Hq0 : 0 <= m' / Zpos my).
    { apply Z.div_pos; [|lia]. rewrite Hm'.
      apply Z.mul_nonneg_nonneg; [lia|]. apply Z.pow_nonneg. lia. }
    unfold Z.div in Hq, Hq0.
    destruct (Z.div_eucl m' (Zpos my)) as [q r]. simpl in Hq, Hq0.
    apply (binary_round_aux_below 8388608 (-23)); [reflexivity|lia|lia|].
    assert (E : Zpos 8388608 * 2 ^ (-23 - e') = 2 ^ (- e')).
    { change (Zpos 8388608) with (2 ^ 23). rewrite <- Z.pow_add_r by lia.
      f_equal. lia. }
    rewrite E. exact Hq.
  - pose proof (fle_not_flt _ _ Hxy L) as E.
    rewrite (fcompare_eq_finite _ _ _ _ E), fdiv_self. reflexivity.
Qed.

(** Adding a non-negative amount to a non-negative value of the format
    does not decrease it. *)
Lemma fadd_ge (x a : float) :
  is_float x -> fle lit_0 x = true -> fle lit_0 a = true ->
  fle x (fadd x a) = true.
Proof.
  intros Vx Hx Ha. pose proof (nonneg_signed _ Hx) as Sx.
  pose proof (nonneg_signed _ Ha) as Sa. unfold fadd.
  destruct x as [sx|sx| |sx mx ex], a as [sa|sa| |sa ma ea]; simpl in Sx, Sa;
    subst; try contradiction; try (destruct sx); try (destruct sa);
    try reflexivity.
  - apply fle_refl. reflexivity.
  - apply fle_refl. reflexivity.
  - simpl.
    destruct (shl_align_spec mx ex (Z.min ex ea)) as [Hsx Hfx].
    apply (binary_round_ge mx ex Vx).
    replace (Z.min (Z.min ex ea) ex) with (Z.min ex ea) by lia.
    rewrite Z.sub_diag. simpl (2 ^ 0).
    replace (Z.min ex (Z.min ex ea)) with (Z.min ex ea) in Hsx by lia.
    rewrite Hsx in Hfx. rewrite <- Hfx, Pos2Z.inj_add. lia.
Qed.

(** Scaling a non-negative value of the format by 1.5 does not decrease
    it. *)
Lemma fmul_1_5_ge (d : float) :
  is_float d -> fle lit_0 d = true -> fle d (fmul d lit_1_5) = true.
Proof.
  intros Vd Hd. pose proof (nonneg_signed _ Hd) as Sd. unfold fmul.
  destruct d as [sd|sd| |sd md ed]; simpl in Sd; subst; try contradiction;
    try reflexivity.
  simpl. apply (binary_round_aux_ge md ed Vd).
  replace (Z.min (ed + -23) ed) with (ed + -23) by lia.
  rewrite Z.sub_diag. simpl (2 ^ 0).
  replace (ed - (ed + -23)) with 23 by lia.
  rewrite Pos2Z.inj_mul. change (2 ^ 23) with 8388608. lia.
Qed.

(** A fifth of a non-negative value of the format does not exceed it. *)
Lemma fmul_0_2_le (x : float) :
  is_float x -> fle lit_0 x = true -> fle (fmul x lit_0_2) x = true.
Proof.
  intros Vx Hx. pose proof (nonneg_signed _ Hx) as Sx. unfold fmul.
  destruct x as [sx|sx| |sx mx ex]; simpl in Sx; subst; try contradiction;
    try reflexivity.
  simpl. apply (binary_round_aux_le mx ex Vx); [lia|].
  replace (ex - (ex + -26)) with 26 by lia.
  rewrite Pos2Z.inj_mul. change (2 ^ 26) with 67108864. lia.
Qed.

(** [a < b] excludes [b <= a]. *)
Lemma flt_not_fle (a b : float) : flt a b = true -> fle b a = false.
Proof.
  intros H. destruct (fle b a) eqn:L; [|reflexivity].
  pose proof (flt_fle_trans _ _ _ H L) as C. rewrite flt_irrefl in C.
  discriminate.
Qed.

Lemma fle_not_flt_rev (a b : float) : fle a b = true -> flt b a = false.
Proof.
  intros H. destruct (flt b a) eqn:L; [|reflexivity].
  pose proof (flt_fle_trans _ _ _ L H) as C. rewrite flt_irrefl in C.
  discriminate.
Qed.

(** Subtracting at least as much as there is leaves nothing positive. *)
Lemma fsub_not_pos (x d : float) :
  is_float x -> is_float d -> fle lit_0 x = true -> fle x d = true ->
  flt lit_0 (fsub x d) = false.
Proof.
  intros Vx Vd Hx Hxd. pose proof (nonneg_signed _ Hx) as Sx.
  pose proof (nonneg_signed _ (fle_trans _ _ _ Hx Hxd)) as Sd. unfold fsub.
  destruct x as [sx|sx| |sx mx ex], d as [sd|sd| |sd md ed]; simpl in Sx, Sd;
    subst; try contradiction; try (destruct sx); try (destruct sd);
    try reflexivity; try discriminate.
  pose proof (fle_finite_value _ _ _ _ Vx Vd Hxd) as Hv. simpl.
  set (ez := Z.min ex ed) in *.
  destruct (shl_align_spec mx ex ez) as [Hsx Hfx].
  destruct (shl_align_spec md ed ez) as [Hsd Hfd].
  replace (Z.min ex ez) with ez in Hsx by (unfold ez; lia).
  replace (Z.min ed ez) with ez in Hsd by (unfold ez; lia).
  rewrite Hsx in Hfx. rewrite Hsd in Hfd.
  destruct (Zpos (fst (shl_align mx ex ez)) - Zpos (fst (shl_align md ed ez)))
    as [|p|p] eqn:E; simpl.
  - reflexivity.
  - lia.
  - apply signed_true_not_pos, binary_round_signed.
Qed.

(** Subtracting a smaller non-negative number leaves a non-negative one. *)
Lemma fsub_nonneg (x d : float) :
  is_float x -> is_float d -> fle lit_0 d = true -> fle d x = true ->
  is_finite d = true ->
  fle lit_0 (fsub x d) = true.
Proof.
  intros Vx Vd Hd Hdx Fd. pose proof (nonneg_signed _ Hd) as Sd.
  pose proof (nonneg_signed _ (fle_trans _ _ _ Hd Hdx)) as Sx. unfold fsub.
  destruct x as [sx|sx| |sx mx ex], d as [sd|sd| |sd md ed]; simpl in Sx, Sd;
    subst; try contradiction; try (destruct sx); try (destruct sd);
    try reflexivity; try discriminate.
  pose proof (fle_finite_value _ _ _ _ Vd Vx Hdx) as Hv. simpl.
  rewrite (Z.min_comm ed ex) in Hv.
  set (ez := Z.min ex ed) in *.
  destruct (shl_align_spec mx ex ez) as [Hsx Hfx].
  destruct (shl_align_spec md ed ez) as [Hsd Hfd].
  replace (Z.min ex ez) with ez in Hsx by (unfold ez; lia).
  replace (Z.min ed ez) with ez in Hsd by (unfold ez; lia).
  rewrite Hsx in Hfx. rewrite Hsd in Hfd.
  destruct (Zpos (fst (shl_align mx ex ez)) - Zpos (fst (shl_align md ed ez)))
    as [|p|p] eqn:E; simpl.
  - reflexivity.
  - destruct (signed_false_nonneg _ (binary_round_signed false p ez)) as [N|P];
      [|exact P].
    rewrite binary_round_not_nan in N. discriminate.
  - lia.
Qed.

(** The signs of quotients and square roots. *)
Lemma fdiv_nonneg (x y : float) :
  fle lit_0 x = true -> flt lit_0 y = true ->
  is_nan (fdiv x y) = true \/ fle lit_0 (fdiv x y) = true.
Proof.
  intros Hx Hy. pose proof (nonneg_signed _ Hx) as Sx.
  pose proof (nonneg_signed _ (flt_fle _ _ Hy)) as Sy. unfold fdiv.
  destruct x as [sx|sx| |sx mx ex], y as [sy|sy| |sy my ey]; simpl in Sx, Sy;
    subst; try contradiction; try discriminate; simpl; auto.
  destruct (SFdiv_core_binary prec emax (Zpos mx) ex (Zpos my) ey) as [[mz ez] lz].
  apply signed_false_nonneg, binary_round_aux_signed.
Qed.

Lemma fsqrt_nonneg (y : float) :
  is_nan (fsqrt y) = true \/ fle lit_0 (fsqrt y) = true.
Proof.
  unfold fsqrt. destruct y as [s|s| |s m e]; simpl; auto.
  - destruct s; auto.
  - destruct s; auto.
    destruct (SFsqrt_core_binary prec emax (Zpos m) e) as [[mz ez] lz].
    apply signed_false_nonneg, binary_round_aux_signed.
Qed.

(** Conversions of integers. *)
Lemma of_int_valid (n : Z) : is_float (of_int n).
Proof. apply binary_normalize_valid. Qed.

Lemma of_int_not_nan (n : Z) : is_nan (of_int n) = false.
Proof. apply binary_normalize_not_nan. Qed.

Lemma of_int_nonneg (n : Z) : 0 <= n -> fle lit_0 (of_int n) = true.
Proof.
  intros Hn. destruct n as [|p|p]; [reflexivity| |lia].
  destruct (signed_false_nonneg _ (binary_round_signed false p 0)) as [N|P];
    [|exact P].
  rewrite binary_round_not_nan in N. discriminate.
Qed.

Lemma of_int_ge_1 (n : Z) : 1 <= n -> fle lit_1 (of_int n) = true.
Proof.
  intros Hn. destruct n as [|p|p]; try lia.
  apply (binary_round_ge 8388608 (-23)); [reflexivity|].
  change (Z.min 0 (-23)) with (-23). simpl. lia.
Qed.

Lemma of_int_finite (n : Z) : 0 <= n < 2 ^ 31 -> is_finite (of_int n) = true.
Proof.
  intros Hn. destruct n as [|p|p]; [reflexivity| |lia].
  assert (L : fle (of_int (Zpos p)) (S754_finite false 8388608 8) = true).
  { apply (binary_round_le 8388608 8); [reflexivity|lia|].
    change (Zpos 8388608 * 2 ^ (8 - 0)) with (2 ^ 31). lia. }
  pose proof (of_int_nonneg (Zpos p)) as P.
  destruct (of_int (Zpos p)) as [s|s| |s m e]; try reflexivity.
  - specialize (P ltac:(lia)). destruct s; discriminate.
  - discriminate.
Qed.

End Float32Order.

(** ** EnemyAIBehavior: health, damage and paths *)

Module EnemyAIBehaviorMore.
Import EnemyAIBehavior Float32Facts Float32Rounding Float32Order.

Lemma fsub_nan_r (x : float) : fsub x S754_nan = S754_nan.
Proof. destruct x; reflexivity. Qed.

(** X1.  [DecideAction] never answers IDLE, and without line of sight, or with a
    distance that is not a number, it never answers ATTACK or CHASE. *)
Theorem DecideAction_answers (self : t) (distance playerHealth : float)
    (los : bool) :
  DecideAction self distance playerHealth los <> IDLE /\
  (let blind := DecideAction self distance playerHealth false in
   blind = DEAD \/ blind = STUNNED \/ blind = PATROL) /\
  (let lost := DecideAction self S754_nan playerHealth los in
   lost = DEAD \/ lost = STUNNED \/ lost = PATROL).
Proof.
  cbv zeta. unfold DecideAction.
  destruct (fle (currentHealth self) lit_0);
    [repeat split; auto; discriminate|].
  destruct (flt (currentHealth self) _);
    [repeat split; auto; discriminate|].
  rewrite !andb_false_r. change (flt S754_nan ?x) with false. cbn [andb].
  split; [|auto].
  destruct (flt distance (attackRange self) && los); [discriminate|].
  destruct (flt distance (detectionRange self) && los); discriminate.
Qed.

(** X2.  [TakeDamage] leaves a health that is at least 0 whatever the amount is
    (negative, infinite or not a number); an amount that is not a number
    sets health to exactly 0, after which the enemy is DEAD, while [Heal]
    with such an amount restores maxHealth. *)
Theorem TakeDamage_any_amount (self : t) (amount distance playerHealth : float)
    (los : bool) :
  fle lit_0 (currentHealth (TakeDamage self amount)) = true /\
  currentHealth (TakeDamage self S754_nan) = lit_0 /\
  DecideAction (TakeDamage self S754_nan) distance playerHealth los = DEAD /\
  currentHealth (Heal self S754_nan) = maxHealth self.
Proof.
  split; [apply std_max_lower; reflexivity|].
  assert (E : currentHealth (TakeDamage self S754_nan) = lit_0).
  { simpl. rewrite fsub_nan_r. reflexivity. }
  split; [exact E|]. split.
  - unfold DecideAction. rewrite E. reflexivity.
  - simpl. rewrite fadd_nan_r. unfold std_min.
    destruct (maxHealth self); reflexivity.
Qed.

(** X3.  Damage of at least the current health kills: health becomes exactly 0
    and [DecideAction] answers DEAD whatever it is asked. *)
Theorem TakeDamage_lethal (self : t) (amount : float) :
  is_float (currentHealth self) -> is_float amount ->
  fle lit_0 (currentHealth self) = true ->
  fle (currentHealth self) amount = true ->
  currentHealth (TakeDamage self amount) = lit_0 /\
  forall distance playerHealth los,
    DecideAction (TakeDamage self amount) distance playerHealth los = DEAD.
Proof.
  intros Vh Va Hh Hle.
  assert (E : currentHealth (TakeDamage self amount) = lit_0).
  { simpl. unfold std_max. rewrite fsub_not_pos by assumption. reflexivity. }
  split; [exact E|]. intros. unfold DecideAction. rewrite E. reflexivity.
Qed.

Lemma TakeDamage_lethal_witness :
  currentHealth (TakeDamage (new lit_100) (of_int 250)) = lit_0 /\
  DecideAction (TakeDamage (new lit_100) (of_int 250)) lit_1 lit_100 true = DEAD.
Proof.
  destruct (TakeDamage_lethal (new lit_100) (of_int 250)
              eq_refl eq_refl eq_refl eq_refl) as [H0 Hd].
  split; [exact H0|apply Hd].
Defined.

(** One call keeps the health invariant. *)
Lemma after_health_ok (self : t) (c : Call) :
  is_float (currentHealth self) -> is_float (maxHealth self) ->
  health_ok self = true -> call_ok c = true ->
  is_float (currentHealth (after self c)) /\
  maxHealth (after self c) = maxHealth self /\
  health_ok (after self c) = true.
Proof.
  intros Vh Vm Hok Hc. unfold health_ok in *.
  apply andb_true_iff in Hok as [H0 Hmax].
  destruct c as [? ? ?|? ? ? ?|? ? ?|amount|amount|]; simpl;
    try (split; [assumption|split; [reflexivity|]];
         apply andb_true_iff; split; assumption).
  - (* TakeDamage *)
    simpl in Hc. apply andb_true_iff in Hc as [Va Ha].
    split; [apply std_max_valid; [reflexivity|apply fsub_valid; assumption]|].
    split; [reflexivity|]. apply andb_true_iff. split.
    + apply std_max_lower. reflexivity.
    + destruct (std_max_cases lit_0 (fsub (currentHealth self) amount))
        as [[Hp ->]|[_ ->]].
      * apply (fle_trans _ (currentHealth self)); [|exact Hmax].
        apply fsub_le; assumption.
      * apply (fle_trans _ (currentHealth self)); assumption.
  - (* Heal *)
    simpl in Hc. apply andb_true_iff in Hc as [Va Ha].
    split; [apply std_min_valid; [assumption|apply fadd_valid; assumption]|].
    split; [reflexivity|]. apply andb_true_iff. split.
    + destruct (std_min_cases (maxHealth self) (fadd (currentHealth self) amount))
        as [[Hlt ->]|[_ ->]].
      * destruct (fadd_nonneg _ _ H0 Ha) as [N|P]; [|exact P].
        rewrite (fle_not_nan_l _ _ (flt_fle _ _ Hlt)) in N. discriminate.
      * apply (fle_trans _ (currentHealth self)); assumption.
    + apply std_min_upper. apply (fle_not_nan_r _ _ Hmax).
Qed.

(** X4.  From construction with a non-negative maxHp, along any sequence of
    calls of the public interface whose damage and heal amounts are
    non-negative, 0 <= currentHealth <= maxHealth holds and maxHealth stays
    the value given to the constructor. *)
Theorem health_stays_in_range (maxHp : float) (cs : list Call) :
  is_float maxHp -> fle lit_0 maxHp = true -> forallb call_ok cs = true ->
  let self := foldl after (new maxHp) cs in
  fle lit_0 (currentHealth self) = true /\
  fle (currentHealth self) (maxHealth self) = true /\
  maxHealth self = maxHp.
Proof.
  intros Vm Hm Hcs. cbv zeta.
  assert (G : forall cs self,
            is_float (currentHealth self) -> is_float (maxHealth self) ->
            health_ok self = true -> forallb call_ok cs = true ->
            health_ok (foldl after self cs) = true /\
            maxHealth (foldl after self cs) = maxHealth self).
  { clear. induction cs as [|c cs IH]; intros self Vh Vm Hok Hcs; simpl.
    - auto.
    - simpl in Hcs. apply andb_true_iff in Hcs as [Hc Hcs].
      destruct (after_health_ok self c Vh Vm Hok Hc) as (Vh' & Em & Hok').
      destruct (IH (after self c)) as [I1 I2]; auto; [congruence|].
      split; [exact I1|congruence]. }
  destruct (G cs (new maxHp)) as [Hok Em]; auto.
  { unfold health_ok. simpl. rewrite Hm. simpl.
    apply fle_refl. apply (fle_not_nan_r _ _ Hm). }
  unfold health_ok in Hok. apply andb_true_iff in Hok as [H0 H1].
  repeat split; assumption.
Qed.

Lemma health_stays_in_range_witness :
  let self := foldl after (new lit_100)
                [CallTakeDamage (of_int 30); CallHeal (of_int 500);
                 CallDecideAction lit_1 lit_1 true; CallTakeDamage (of_int 250)] in
  fle lit_0 (currentHealth self) = true /\
  fle (currentHealth self) (maxHealth self) = true /\
  maxHealth self = lit_100.
Proof.
  apply (health_stays_in_range lit_100
           [CallTakeDamage (of_int 30); CallHeal (of_int 500);
            CallDecideAction lit_1 lit_1 true; CallTakeDamage (of_int 250)]);
    reflexivity.
Defined.

(** X5.  With a non-negative amount, damage never raises health and healing
    never lowers it. *)
Theorem damage_lowers_heal_raises (self : t) (amount : float) :
  is_float (currentHealth self) -> health_ok self = true ->
  fle lit_0 amount = true ->
  fle (currentHealth (TakeDamage self amount)) (currentHealth self) = true /\
  fle (currentHealth self) (currentHealth (Heal self amount)) = true.
Proof.
  intros Vh Hok Ha. unfold health_ok in Hok.
  apply andb_true_iff in Hok as [H0 Hmax]. simpl. split.
  - destruct (std_max_cases lit_0 (fsub (currentHealth self) amount))
      as [[Hp ->]|[_ ->]]; [apply fsub_le; assumption|exact H0].
  - destruct (std_min_cases (maxHealth self) (fadd (currentHealth self) amount))
      as [[_ ->]|[_ ->]]; [apply fadd_ge; assumption|exact Hmax].
Qed.

Lemma damage_lowers_heal_raises_witness :
  let self := TakeDamage (new lit_100) (of_int 40) in
  fle (currentHealth (TakeDamage self (of_int 25))) (currentHealth self) = true /\
  fle (currentHealth self) (currentHealth (Heal self (of_int 25))) = true.
Proof.
  apply (damage_lowers_heal_raises (TakeDamage (new lit_100) (of_int 40)) (of_int 25));
    reflexivity.
Defined.

(** X6.  A critical hit never deals less than the same hit without the flag. *)
Theorem critical_not_weaker (self : t) (basePower targetDefense : float) :
  is_float basePower -> is_float targetDefense ->
  fle (CalculateDamage self basePower targetDefense false)
      (CalculateDamage self basePower targetDefense true) = true.
Proof.
  intros Vb Vd. unfold CalculateDamage.
  set (d := fmul basePower (fsub lit_1 (fmul targetDefense lit_0_01))).
  assert (V : is_float d).
  { apply fmul_valid; [exact Vb|]. apply fsub_valid; [reflexivity|].
    apply fmul_valid; [exact Vd|reflexivity]. }
  clearbody d.
  destruct (std_max_cases lit_1 d) as [[Hp ->]|[_ ->]].
  - assert (P : fle lit_0 d = true).
    { apply flt_fle. apply (flt_trans lit_0 lit_1 d); [reflexivity|exact Hp]. }
    pose proof (fmul_1_5_ge d V P) as Hge.
    unfold std_max. rewrite (flt_fle_trans _ _ _ Hp Hge). exact Hge.
  - apply std_max_lower. reflexivity.
Qed.

Lemma critical_not_weaker_witness :
  fle (CalculateDamage (new lit_100) (of_int 50) (of_int 20) false)
      (CalculateDamage (new lit_100) (of_int 50) (of_int 20) true) = true.
Proof.
  apply (critical_not_weaker (new lit_100) (of_int 50) (of_int 20)); reflexivity.
Defined.

(** X7.  [GetHealthPercent] divides without a guard: with maxHealth zero the
    result is never a number, and it is NaN when the health invariant
    holds. *)
Theorem GetHealthPercent_zero_max (self : t) (s : bool) :
  maxHealth self = S754_zero s ->
  is_finite (GetHealthPercent self) = false /\
  (health_ok self = true -> GetHealthPercent self = S754_nan).
Proof.
  intros E. unfold GetHealthPercent, health_ok. rewrite E.
  destruct (currentHealth self) as [sh|sh| |sh mh eh]; simpl; split;
    try reflexivity; try discriminate; try (destruct sh; discriminate).
Qed.

Lemma GetHealthPercent_zero_max_witness :
  GetHealthPercent (new lit_0) = S754_nan.
Proof.
  apply (GetHealthPercent_zero_max (new lit_0) false); reflexivity.
Defined.

(** X12.  An enemy at full health, with a positive maxHealth, is neither DEAD nor
    STUNNED: it attacks, chases or patrols.  This is the state the
    constructor leaves. *)
Theorem full_health_active (self : t) (distance playerHealth : float)
    (los : bool) :
  is_float (maxHealth self) -> flt lit_0 (maxHealth self) = true ->
  currentHealth self = maxHealth self ->
  let action := DecideAction self distance playerHealth los in
  action = ATTACK \/ action = CHASE \/ action = PATROL.
Proof.
  intros Vm Pm E. cbv zeta. unfold DecideAction. rewrite E.
  rewrite (flt_not_fle _ _ Pm).
  rewrite (fle_not_flt_rev _ _ (fmul_0_2_le _ Vm (flt_fle _ _ Pm))).
  destruct (flt distance (attackRange self) && los); [auto|].
  destruct (flt distance (detectionRange self) && los); auto.
Qed.

Lemma full_health_active_witness :
  DecideAction (new lit_100) (of_int 2) lit_100 true = ATTACK \/
  DecideAction (new lit_100) (of_int 2) lit_100 true = CHASE \/
  DecideAction (new lit_100) (of_int 2) lit_100 true = PATROL.
Proof.
  apply (full_health_active (new lit_100) (of_int 2) lit_100 true); reflexivity.
Defined.

(** X13.  DEAD is not absorbing: healing an enemy whose health is 0 by a positive
    amount gives it positive health again, and [DecideAction] no longer
    answers DEAD. *)
Theorem Heal_revives (self : t) (amount distance playerHealth : float)
    (los : bool) :
  currentHealth self = lit_0 ->
  flt lit_0 amount = true -> flt lit_0 (maxHealth self) = true ->
  DecideAction self distance playerHealth los = DEAD /\
  flt lit_0 (currentHealth (Heal self amount)) = true /\
  DecideAction (Heal self amount) distance playerHealth los <> DEAD.
Proof.
  intros E Pa Pm.
  assert (P : flt lit_0 (currentHealth (Heal self amount)) = true).
  { simpl. rewrite E.
    assert (Ea : fadd lit_0 amount = amount).
    { destruct amount as [s|s| |s m e]; try reflexivity; discriminate. }
    rewrite Ea. unfold std_min. destruct (flt amount (maxHealth self)); assumption. }
  split; [unfold DecideAction; rewrite E; reflexivity|].
  split; [exact P|].
  revert P. generalize (Heal self amount). intros healed P.
  unfold DecideAction. rewrite (flt_not_fle _ _ P).
  destruct (flt (currentHealth healed) _); [discriminate|].
  destruct (flt distance (attackRange healed) && los); [discriminate|].
  destruct (flt distance (detectionRange healed) && los); discriminate.
Qed.

Lemma Heal_revives_witness :
  let self := TakeDamage (new lit_100) (of_int 250) in
  DecideAction self lit_1 lit_100 true = DEAD /\
  DecideAction (Heal self (of_int 60)) lit_1 lit_100 true <> DEAD.
Proof.
  destruct (Heal_revives (TakeDamage (new lit_100) (of_int 250)) (of_int 60)
              lit_1 lit_100 true eq_refl eq_refl eq_refl) as (Hd & _ & Hr).
  split; [exact Hd|exact Hr].
Defined.

(** X8.  Under the health invariant and with a positive finite maxHealth, the
    health fraction lies between 0 and 1. *)
Theorem GetHealthPercent_in_unit (self : t) :
  is_float (currentHealth self) -> is_float (maxHealth self) ->
  health_ok self = true ->
  flt lit_0 (maxHealth self) = true -> is_finite (maxHealth self) = true ->
  fle lit_0 (GetHealthPercent self) = true /\
  fle (GetHealthPercent self) lit_1 = true.
Proof.
  intros Vh Vm Hok Pm Fm. unfold health_ok in Hok.
  apply andb_true_iff in Hok as [H0 Hmax]. unfold GetHealthPercent.
  pose proof (fdiv_le_1 _ _ Vh Vm H0 Hmax Pm Fm) as H1.
  split; [|exact H1].
  destruct (fdiv_nonneg _ _ H0 Pm) as [N|P]; [|exact P].
  rewrite (fle_not_nan_l _ _ H1) in N. discriminate.
Qed.

Lemma GetHealthPercent_in_unit_witness :
  let self := TakeDamage (new lit_100) (of_int 30) in
  fle lit_0 (GetHealthPercent self) = true /\
  fle (GetHealthPercent self) lit_1 = true.
Proof.
  apply (GetHealthPercent_in_unit (TakeDamage (new lit_100) (of_int 30)));
    reflexivity.
Defined.

(** *** FindPath *)

Lemma to_int_Some (x : float) (v : Z) :
  to_int x = Some v ->
  is_finite x = true /\ truncate x = Some v /\ (INT_MIN <= v <= INT_MAX)%Z.
Proof.
  unfold to_int. destruct (truncate x) as [w|] eqn:T; [|discriminate].
  destruct ((INT_MIN <=? w) && (w <=? INT_MAX))%Z eqn:R; [|discriminate].
  intros [= <-]. apply andb_true_iff in R as [R1 R2].
  apply Z.leb_le in R1, R2.
  split; [destruct x; try discriminate; reflexivity|]. split; [reflexivity|lia].
Qed.

Lemma to_int_nonneg (x : float) (v : Z) :
  fle lit_0 x = true -> to_int x = Some v -> (0 <= v)%Z.
Proof.
  intros Hx Hv. pose proof (nonneg_signed _ Hx) as Sx.
  destruct (to_int_Some _ _ Hv) as (_ & T & _).
  destruct x as [s|s| |s m e]; simpl in T, Sx; try discriminate.
  - injection T as <-. lia.
  - subst s. injection T as <-. simpl. apply Z.shiftl_nonneg. lia.
Qed.

Lemma fsub_finite_inv (a b : float) :
  is_finite (fsub a b) = true -> is_finite a = true /\ is_finite b = true.
Proof.
  destruct a as [sa|sa| |sa ma ea], b as [sb|sb| |sb mb eb]; simpl; auto;
    destruct sa, sb; simpl; auto.
Qed.

Lemma fadd_finite_inv (a b : float) :
  is_finite (fadd a b) = true -> is_finite a = true /\ is_finite b = true.
Proof.
  destruct a as [sa|sa| |sa ma ea], b as [sb|sb| |sb mb eb]; simpl; auto;
    destruct sa, sb; simpl; auto.
Qed.

Lemma fmul_self_finite_inv (a : float) :
  is_finite (fmul a a) = true -> is_finite a = true.
Proof. destruct a; simpl; auto. Qed.

Lemma fsqrt_finite_inv (a : float) :
  is_finite (fsqrt a) = true -> is_finite a = true.
Proof. destruct a as [s|s| |s m e]; simpl; auto. destruct s; auto. Qed.

Lemma fdiv_half_finite_inv (a : float) :
  is_finite (fdiv a lit_0_5) = true -> is_finite a = true.
Proof. destruct a; simpl; auto. Qed.


(** Adding a product with zero to a number gives a number equal to it. *)
Lemma fadd_fmul_zero (x d : float) (s : bool) :
  is_finite x = true -> is_finite d = true ->
  feq (fadd x (fmul d (S754_zero s))) x = true.
Proof.
  intros Fx Fd. assert (Hz : exists s', fmul d (S754_zero s) = S754_zero s').
  { destruct d; try discriminate; simpl; eauto. }
  destruct Hz as [s' ->].
  destruct x as [sx|sx| |sx mx ex]; try discriminate; simpl.
  - destruct sx, s'; reflexivity.
  - unfold feq, SFeqb. rewrite fcompare_refl; reflexivity.
Qed.

(** The step count of a defined path, and what being defined requires. *)
Lemma FindPath_defined (self : t) (startX startY endX endY : float)
    (path : list float) :
  FindPath self startX startY endX endY = Some path ->
  exists steps : Z,
    (0 <= steps <= INT_MAX)%Z /\
    path = FindPath_loop (Z.to_nat (steps + 1)) 0 steps startX startY
             (fsub endX startX) (fsub endY startY) /\
    is_finite (fsub endX startX) = true /\
    is_finite (fsub endY startY) = true.
Proof.
  unfold FindPath.
  set (dx := fsub endX startX). set (dy := fsub endY startY).
  set (distance := fsqrt (fadd (fmul dx dx) (fmul dy dy))).
  destruct (to_int (fdiv distance lit_0_5)) as [steps|] eqn:T; [|discriminate].
  intros [= <-]. exists steps.
  destruct (to_int_Some _ _ T) as (F & _ & R).
  apply fdiv_half_finite_inv, fsqrt_finite_inv, fadd_finite_inv in F as [Fx Fy].
  apply fmul_self_finite_inv in Fx, Fy.
  assert (0 <= steps)%Z.
  { destruct (fsqrt_nonneg (fadd (fmul dx dx) (fmul dy dy))) as [N|P].
    - fold distance in N. destruct distance; try discriminate.
    - fold distance in P.
      destruct (fdiv_nonneg distance lit_0_5 P eq_refl) as [N|Q].
      + destruct (fdiv distance lit_0_5); discriminate.
      + apply (to_int_nonneg _ _ Q T). }
  repeat split; auto; lia.
Qed.



(** X10.  A path that [FindPath] returns starts at the start point: its first two
    coordinates are equal to startX and startY. *)
Theorem FindPath_starts_at_start (self : t) (startX startY endX endY : float)
    (path : list float) :
  FindPath self startX startY endX endY = Some path ->
  exists px py rest, path = px :: py :: rest /\
    feq px startX = true /\ feq py startY = true.
Proof.
  intros H. destruct (FindPath_defined _ _ _ _ _ _ H)
    as (steps & R & -> & Fx & Fy).
  destruct (fsub_finite_inv _ _ Fx) as [_ F1].
  destruct (fsub_finite_inv _ _ Fy) as [_ F2].
  replace (Z.to_nat (steps + 1)) with (S (Z.to_nat steps)) by lia.
  cbn [FindPath_loop].
  assert (Ft : exists s, (if (steps >? 0)%Z
                          then fdiv (of_int 0) (of_int steps) else lit_0)
                         = S754_zero s).
  { destruct (steps >? 0)%Z eqn:G; [|exists false; reflexivity].
    apply Z.gtb_lt in G.
    pose proof (of_int_ge_1 steps ltac:(lia)) as P.
    change (of_int 0) with (S754_zero false).
    destruct (of_int steps) as [s|s| |s m e]; try discriminate; simpl; eauto. }
  destruct Ft as [s ->].
  eexists _, _, _. split; [reflexivity|].
  split; apply fadd_fmul_zero; auto.
Qed.

Lemma FindPath_starts_at_start_witness :
  exists px py rest,
    FindPath_loop 11 0 10 lit_1 lit_1 lit_3 (of_int 4) = px :: py :: rest /\
    feq px lit_1 = true /\ feq py lit_1 = true.
Proof.
  assert (H : FindPath (new lit_100) lit_1 lit_1 (of_int 4) (of_int 5)
              = Some (FindPath_loop 11 0 10 lit_1 lit_1 lit_3 (of_int 4)))
    by (vm_compute; reflexivity).
  exact (FindPath_starts_at_start _ _ _ _ _ _ H).
Defined.

Lemma fsub_diag (x : float) :
  is_finite x = true -> fsub x x = S754_zero false.
Proof.
  destruct x as [s|s| |s m e]; try discriminate; intros _.
  - destruct s; reflexivity.
  - unfold fsub. simpl. rewrite Z.sub_diag. reflexivity.
Qed.

(** X11.  When the end point is the start point, the path is that one point: the
    step count is 0 and the division by it is skipped. *)
Theorem FindPath_same_point (self : t) (x y : float) :
  is_finite x = true -> is_finite y = true ->
  exists px py, FindPath self x y x y = Some [px; py] /\
    feq px x = true /\ feq py y = true.
Proof.
  intros Fx Fy. unfold FindPath. rewrite (fsub_diag x Fx), (fsub_diag y Fy).
  change (to_int _) with (Some 0%Z). cbn [Z.to_nat Z.add Pos.to_nat].
  eexists _, _. split; [reflexivity|].
  split; apply (fadd_fmul_zero _ (S754_zero false) false); auto.
Qed.

Lemma FindPath_same_point_witness :
  exists px py,
    FindPath (new lit_100) lit_3 (of_int (-7)) lit_3 (of_int (-7)) = Some [px; py] /\
    feq px lit_3 = true /\ feq py (of_int (-7)) = true.
Proof.
  apply (FindPath_same_point (new lit_100) lit_3 (of_int (-7))); reflexivity.
Defined.

End EnemyAIBehaviorMore.

(** ** CombatSystem: hit bands, combo multiplier, elemental advantage *)

Module CombatSystemMore.
Import CombatSystem Float32Facts Float32Rounding Float32Order CombatSystemFacts.

(** The draws below 0.10 and the draws from 0.95 on. *)
Lemma draw_low (k : Z) :
  (0 <= k < 10)%Z -> flt (fdiv (of_int k) lit_100) lit_0_1 = true.
Proof.
  intros H.
  assert (k = 0 \/ k = 1 \/ k = 2 \/ k = 3 \/ k = 4 \/ k = 5 \/ k = 6 \/ k = 7
          \/ k = 8 \/ k = 9)%Z as C by lia.
  repeat (destruct C as [->|C]; [vm_compute; reflexivity|]).
  subst k. vm_compute. reflexivity.
Qed.

Lemma draw_high (k : Z) :
  (95 <= k < 100)%Z -> fle lit_0_95 (fdiv (of_int k) lit_100) = true.
Proof.
  intros H.
  assert (k = 95 \/ k = 96 \/ k = 97 \/ k = 98 \/ k = 99)%Z as C by lia.
  repeat (destruct C as [->|C]; [vm_compute; reflexivity|]).
  subst k. vm_compute. reflexivity.
Qed.

(** X14.  Whatever accuracy and evasion are, a [rand()] result whose last two
    decimal digits are below 10 is a hit and one whose last two digits are
    95 or more is a miss: the stats can move the outcome only for the
    residues 10 to 94. *)
Theorem CalculateHit_bands (rand_value : Z) (accuracy evasion : float) :
  (0 <= rand_value)%Z ->
  ((Z.rem rand_value 100 < 10)%Z ->
     CalculateHit rand_value accuracy evasion = true) /\
  ((95 <= Z.rem rand_value 100)%Z ->
     CalculateHit rand_value accuracy evasion = false).
Proof.
  intros Hr. pose proof (Z.rem_bound_pos rand_value 100 Hr ltac:(lia)) as B.
  unfold CalculateHit, hitChance, draw.
  generalize (fdiv (fsub accuracy evasion) lit_100). intros q.
  destruct (clamp_cases q) as (Hlo & Hhi & _). cbv zeta in Hlo, Hhi.
  set (chance := std_max lit_0_1 (std_min lit_0_95 q)) in *. clearbody chance.
  split; intros Hk.
  - apply (flt_fle_trans _ lit_0_1); [apply draw_low; lia|exact Hlo].
  - destruct (flt (fdiv (of_int (Z.rem rand_value 100)) lit_100) chance) eqn:F;
      [|reflexivity].
    pose proof (draw_high (Z.rem rand_value 100) ltac:(lia)) as Hd.
    pose proof (flt_fle_trans _ _ _ F (fle_trans _ _ _ Hhi Hd)) as C.
    rewrite flt_irrefl in C. discriminate.
Qed.

Lemma CalculateHit_bands_witness :
  CalculateHit 1804289307 (of_int (-500)) (of_int 500) = true /\
  CalculateHit 846930897 (of_int 500) (of_int (-500)) = false.
Proof.
  split.
  - apply (CalculateHit_bands 1804289307 (of_int (-500)) (of_int 500));
      [lia|vm_compute; reflexivity].
  - apply (CalculateHit_bands 846930897 (of_int 500) (of_int (-500)));
      [lia|vm_compute; discriminate].
Defined.

(** X15.  The combo multiplier is never below 1 for a non-negative combo count,
    and it is exactly 1 for 0. *)
Theorem CalculateComboMultiplier_ge_1 (comboCount : Z) :
  (0 <= comboCount)%Z ->
  fle lit_1 (CalculateComboMultiplier comboCount) = true /\
  CalculateComboMultiplier 0 = lit_1.
Proof.
  intros Hn. split; [|reflexivity]. unfold CalculateComboMultiplier.
  apply fadd_ge; [reflexivity|reflexivity|].
  destruct (fmul_nonneg (of_int comboCount) lit_0_1) as [N|P];
    [apply of_int_nonneg; exact Hn|reflexivity| |exact P].
  pose proof (of_int_not_nan comboCount) as Hnn.
  unfold fmul in N.
  destruct (of_int comboCount) as [s|s| |s m e]; simpl in N; try discriminate.
  rewrite binary_round_aux_not_nan in N by lia. discriminate.
Qed.

Lemma CalculateComboMultiplier_ge_1_witness :
  fle lit_1 (CalculateComboMultiplier 7) = true.
Proof. apply (CalculateComboMultiplier_ge_1 7). lia. Defined.

(** X16.  The advantage relation is antisymmetric: an attack is strong (1.5)
    exactly when the reverse attack is weak (0.5); an element against
    itself is neutral; and a multiplier, when defined, is 0.5, 1.0 or 1.5,
    so it never cancels or negates damage. *)
Theorem GetElementalMultiplier_antisymmetric (attack target : Element) :
  (GetElementalMultiplier attack target = Some lit_1_5 <->
   GetElementalMultiplier target attack = Some lit_0_5) /\
  GetElementalMultiplier attack attack = Some lit_1 /\
  (forall m, GetElementalMultiplier attack target = Some m ->
     m = lit_0_5 \/ m = lit_1 \/ m = lit_1_5).
Proof.
  split; [|split].
  - destruct attack, target; split; intros H; try reflexivity;
      try discriminate H.
  - destruct attack; reflexivity.
  - intros m. destruct attack, target; intros [= <-]; auto.
Qed.

Lemma GetElementalMultiplier_antisymmetric_witness :
  GetElementalMultiplier ICE FIRE = Some lit_0_5.
Proof.
  apply (proj1 (GetElementalMultiplier_antisymmetric FIRE ICE)). reflexivity.
Defined.

End CombatSystemMore.

(** ** SkillSystem: what the calls keep and how they compose *)

Module SkillSystemMore.
Import SkillSystem Float32Facts Float32Rounding Float32Order SkillSystemFacts.

Lemma static_part_reset (skill : Skill) :
  static_part (reset_cooldown skill) = static_part skill.
Proof. reflexivity. Qed.

Lemma static_part_tick (deltaTime : float) (skill : Skill) :
  static_part (tick_cooldown deltaTime skill) = static_part skill.
Proof. reflexivity. Qed.

Lemma UseSkill_static (self : t) (id : Z) :
  map static_part (skills (UseSkill self id)) = map static_part (skills self) /\
  maxMana (UseSkill self id) = maxMana self.
Proof.
  rewrite UseSkill_first. destruct (CanUseSkill self id); [|auto].
  destruct (first_with_id 0 (skills self) id) as [[i skill]|] eqn:F; [|auto].
  destruct (first_with_id_Some _ _ _ _ _ F) as (_ & Hi & _).
  rewrite Nat.sub_0_r in Hi. simpl. split; [|reflexivity].
  change (map static_part) with (fmap (M:=list) static_part).
  rewrite list_fmap_insert, static_part_reset.
  apply list_insert_id. rewrite list_lookup_fmap, Hi. reflexivity.
Qed.

(** X17.  No call of the public interface adds, removes or reorders skills, or
    changes a skill's id, cooldown, manaCost, damage or isActive, or
    maxMana: only cooldownRemaining and currentMana are ever written. *)
Theorem calls_keep_static_part (self : t) (c : Call) :
  map static_part (skills (after self c)) = map static_part (skills self) /\
  length (skills (after self c)) = length (skills self) /\
  maxMana (after self c) = maxMana self.
Proof.
  assert (H : map static_part (skills (after self c))
              = map static_part (skills self) /\
              maxMana (after self c) = maxMana self).
  { destruct c as [id|id|deltaTime|regenRate deltaTime]; simpl; auto.
    - apply UseSkill_static.
    - split; [|reflexivity]. rewrite map_map. apply map_ext. reflexivity. }
  destruct H as [H1 H2]. split; [exact H1|]. split; [|exact H2].
  rewrite <- (length_map static_part (skills (after self c))), H1.
  apply length_map.
Qed.

(** X18.  The class has no member function that registers a skill: in every state
    reachable from the constructor the ledger is empty, so no skill is ever
    usable and [UseSkill] never changes anything; maxMana stays 100 and
    mana never exceeds it. *)
Theorem reachable_ledger_empty (self : t) :
  reachable self ->
  skills self = [] /\
  maxMana self = lit_100 /\
  fle (currentMana self) lit_100 = true /\
  forall id, CanUseSkill self id = false /\ UseSkill self id = self.
Proof.
  intros R.
  assert (H : skills self = [] /\ maxMana self = lit_100 /\
              fle (currentMana self) lit_100 = true).
  { induction R as [|self c _ (Hs & Hm & Hc)].
    - repeat split.
    - destruct c as [id|id|deltaTime|regenRate deltaTime]; simpl; auto.
      + unfold UseSkill. rewrite Hs. simpl. auto.
      + rewrite Hs. auto.
      + rewrite Hm. repeat split; auto. apply std_min_upper. reflexivity. }
  destruct H as (Hs & Hm & Hc). repeat split; auto.
  - unfold CanUseSkill. rewrite Hs. reflexivity.
  - unfold UseSkill. rewrite Hs. reflexivity.
Qed.

Lemma reachable_ledger_empty_witness :
  let self := after (after (after new (CallRegenerateMana (of_int 5) (of_int 2)))
                       (CallUseSkill 3)) (CallUpdateCooldowns lit_1) in
  skills self = [] /\ CanUseSkill self 3 = false.
Proof.
  cbv zeta.
  assert (R : reachable
                (after (after (after new (CallRegenerateMana (of_int 5) (of_int 2)))
                          (CallUseSkill 3)) (CallUpdateCooldowns lit_1))).
  { repeat apply reachable_call. apply reachable_new. }
  destruct (reachable_ledger_empty _ R) as (Hs & _ & _ & Hid).
  split; [exact Hs|apply Hid].
Defined.

Lemma forallb_insert {A : Type} (f : A -> bool) (l : list A) (i : nat) (x : A) :
  forallb f l = true -> f x = true -> forallb f (<[i:=x]> l) = true.
Proof.
  revert i. induction l as [|y l IH]; intros i Hl Hx; [exact Hl|].
  simpl in Hl. apply andb_true_iff in Hl as [Hy Hl].
  destruct i as [|i]; simpl.
  - rewrite Hx, Hl. reflexivity.
  - rewrite Hy. simpl. apply IH; assumption.
Qed.

Lemma forallb_lookup {A : Type} (f : A -> bool) (l : list A) (i : nat) (x : A) :
  forallb f l = true -> l !! i = Some x -> f x = true.
Proof.
  intros Hl Hi. rewrite forallb_forall in Hl. apply Hl.
  apply list_elem_of_In. apply list_elem_of_lookup. eauto.
Qed.

(** A non-negative number that is not positive is a zero. *)
Lemma nonneg_not_pos_le (x y : float) :
  fle lit_0 x = true -> flt lit_0 x = false -> fle lit_0 y = true ->
  fle x y = true.
Proof.
  intros Hx Hn Hy. apply (fle_trans x lit_0 y); [|exact Hy].
  pose proof (fle_not_flt _ _ Hx Hn) as E.
  unfold fle, SFleb. rewrite (fcompare_antisym lit_0 x), E. reflexivity.
Qed.

(** [UseSkill] keeps the invariant when mana costs are non-negative
    numbers. *)
Lemma UseSkill_preserves (self : t) (id : Z) :
  well_formed self = true -> invariant self = true ->
  forallb cost_ok (skills self) = true ->
  invariant (UseSkill self id) = true /\
  well_formed (UseSkill self id) = true /\
  forallb cost_ok (skills (UseSkill self id)) = true.
Proof.
  intros Hwf Hinv Hcost. rewrite UseSkill_first.
  destruct (CanUseSkill self id) eqn:Hcan; [|auto].
  rewrite CanUseSkill_first in Hcan.
  destruct (first_with_id 0 (skills self) id) as [[i skill]|] eqn:F; [|auto].
  destruct (first_with_id_Some _ _ _ _ _ F) as (_ & Hi & _).
  rewrite Nat.sub_0_r in Hi.
  unfold usable in Hcan. apply andb_true_iff in Hcan as [_ Hafford].
  unfold well_formed, invariant, mana_ok in *.
  apply andb_true_iff in Hwf as [Hwf Vmax]. apply andb_true_iff in Hwf as [Hwf Vm].
  apply andb_true_iff in Hinv as [Hinv Hmana].
  apply andb_true_iff in Hmana as [H0 Hmax].
  pose proof (forallb_lookup _ _ _ _ Hwf Hi) as Wsk.
  pose proof (forallb_lookup _ _ _ _ Hinv Hi) as Osk.
  pose proof (forallb_lookup _ _ _ _ Hcost Hi) as Csk.
  unfold skill_wf in Wsk. apply andb_true_iff in Wsk as [Wsk Vcost].
  apply andb_true_iff in Wsk as [Vcd Vcr].
  unfold skill_ok in Osk. apply andb_true_iff in Osk as [Ocr Ocd].
  unfold cost_ok in Csk. apply andb_true_iff in Csk as [Cnn Cfin].
  assert (Hdiff : fle lit_0 (fsub (currentMana self) (manaCost skill)) = true)
    by (apply fsub_nonneg; assumption).
  simpl. repeat split.
  - apply andb_true_iff. split.
    + apply forallb_insert; [exact Hinv|]. unfold skill_ok. simpl.
      rewrite (fle_trans _ _ _ Ocr Ocd). simpl.
      apply fle_refl. apply (fle_not_nan_r _ _ Ocd).
    + rewrite Hdiff. simpl.
      destruct (flt lit_0 (fsub (currentMana self) (manaCost skill))) eqn:P.
      * apply (fle_trans _ (currentMana self)); [|exact Hmax].
        apply fsub_le; assumption.
      * apply nonneg_not_pos_le; auto.
        apply (fle_trans _ (currentMana self)); assumption.
  - rewrite Vmax, andb_true_r. apply andb_true_iff. split.
    + apply forallb_insert; [exact Hwf|]. unfold skill_wf. simpl.
      rewrite Vcd, Vcost. reflexivity.
    + apply fsub_valid; assumption.
  - apply forallb_insert; [exact Hcost|]. unfold cost_ok. simpl.
    rewrite Cnn, Cfin. reflexivity.
Qed.

Lemma after_preserves (self : t) (c : Call) :
  well_formed self = true -> invariant self = true ->
  forallb cost_ok (skills self) = true -> call_ok c = true ->
  invariant (after self c) = true /\
  well_formed (after self c) = true /\
  forallb cost_ok (skills (after self c)) = true.
Proof.
  intros Hwf Hinv Hcost Hc.
  destruct c as [id|id|deltaTime|regenRate deltaTime].
  - auto.
  - apply UseSkill_preserves; assumption.
  - destruct (tick_preserves self (TickCooldowns deltaTime) Hwf Hinv Hc) as [I W].
    repeat split; [exact I|exact W|].
    simpl. rewrite forallb_forall in *. intros x Hx.
    apply in_map_iff in Hx as (old & <- & Hold). apply (Hcost old Hold).
  - destruct (tick_preserves self (TickMana regenRate deltaTime) Hwf Hinv Hc)
      as [I W].
    repeat split; [exact I|exact W|exact Hcost].
Qed.

(** X19.  Any interleaving of [UseSkill], [CanUseSkill], [UpdateCooldowns] and
    [RegenerateMana] keeps 0 <= cooldownRemaining <= cooldown for every
    skill and 0 <= currentMana <= maxMana, provided the elapsed times and
    rates are non-negative and every mana cost is a non-negative number. *)
Theorem session_keeps_invariant (self : t) (cs : list Call) :
  well_formed self = true -> invariant self = true ->
  forallb cost_ok (skills self) = true -> forallb call_ok cs = true ->
  invariant (foldl after self cs) = true.
Proof.
  revert self. induction cs as [|c cs IH]; intros self Hwf Hinv Hcost Hcs; simpl.
  - exact Hinv.
  - simpl in Hcs. apply andb_true_iff in Hcs as [Hc Hcs].
    destruct (after_preserves self c Hwf Hinv Hcost Hc) as (I & W & C).
    apply IH; assumption.
Qed.

Lemma session_keeps_invariant_witness :
  let skill := mkSkill 7 (of_int 5) lit_0 (of_int 20) (of_int 40) true in
  invariant (foldl after (mk [skill] lit_100 lit_100)
               [CallUseSkill 7; CallUpdateCooldowns (of_int 2); CallUseSkill 7;
                CallRegenerateMana (of_int 3) (of_int 2);
                CallUpdateCooldowns (of_int 4); CallUseSkill 7]) = true.
Proof.
  cbv zeta.
  apply (session_keeps_invariant
           (mk [mkSkill 7 (of_int 5) lit_0 (of_int 20) (of_int 40) true]
               lit_100 lit_100)); reflexivity.
Defined.

(** Ticking the cooldowns does not move the first skill with an id. *)
Lemma first_with_id_tick (deltaTime : float) (l : list Skill) (id : Z) (i : nat) :
  first_with_id i (map (tick_cooldown deltaTime) l) id =
  match first_with_id i l id with
  | Some (j, skill) => Some (j, tick_cooldown deltaTime skill)
  | None => None
  end.
Proof.
  revert i. induction l as [|x l IH]; intros i; simpl; [reflexivity|].
  destruct (skillId x =? id)%Z; [reflexivity|apply IH].
Qed.

Lemma CanUseSkill_after_wait (self : t) (id : Z) (i : nat) (skill : Skill)
    (deltaTime : float) :
  first_with_id 0 (skills self) id = Some (i, skill) ->
  is_float (cooldownRemaining skill) -> is_float deltaTime ->
  fle lit_0 (cooldownRemaining skill) = true ->
  fle (cooldownRemaining skill) deltaTime = true ->
  CanUseSkill (UpdateCooldowns self deltaTime) id
  = fle (manaCost skill) (currentMana self).
Proof.
  intros F Vcr Vd Hcr Hle.
  rewrite CanUseSkill_first. simpl. rewrite first_with_id_tick, F.
  unfold usable. simpl. unfold std_max.
  rewrite fsub_not_pos by assumption. reflexivity.
Qed.

(** X20.  Once at least the remaining cooldown has elapsed, a skill is usable
    exactly when mana covers its cost, and its cooldownRemaining is
    exactly 0. *)
Theorem cooldown_expires (self : t) (id : Z) (i : nat) (skill : Skill)
    (deltaTime : float) :
  first_with_id 0 (skills self) id = Some (i, skill) ->
  is_float (cooldownRemaining skill) -> is_float deltaTime ->
  fle lit_0 (cooldownRemaining skill) = true ->
  fle (cooldownRemaining skill) deltaTime = true ->
  CanUseSkill (UpdateCooldowns self deltaTime) id
  = fle (manaCost skill) (currentMana self) /\
  cooldownRemaining (tick_cooldown deltaTime skill) = lit_0.
Proof.
  intros F Vcr Vd Hcr Hle.
  split; [apply (CanUseSkill_after_wait self id i skill); assumption|].
  simpl. unfold std_max. rewrite fsub_not_pos by assumption. reflexivity.
Qed.

Lemma cooldown_expires_witness :
  let skill := mkSkill 7 (of_int 5) (of_int 5) (of_int 20) (of_int 40) true in
  CanUseSkill (UpdateCooldowns (mk [skill] (of_int 80) lit_100) (of_int 5)) 7 = true.
Proof.
  cbv zeta.
  refine (eq_trans
            (proj1 (cooldown_expires
               (mk [mkSkill 7 (of_int 5) (of_int 5) (of_int 20) (of_int 40) true]
                   (of_int 80) lit_100) 7 0
               (mkSkill 7 (of_int 5) (of_int 5) (of_int 20) (of_int 40) true)
               (of_int 5) eq_refl eq_refl eq_refl eq_refl eq_refl)) _).
  reflexivity.
Defined.

(** X21.  After a successful use, waiting the full cooldown makes the skill usable
    again exactly when the mana that is left covers its cost once more. *)
Theorem use_wait_use (self : t) (id : Z) (i : nat) (skill : Skill) :
  first_with_id 0 (skills self) id = Some (i, skill) ->
  CanUseSkill self id = true ->
  is_float (cooldown skill) -> fle lit_0 (cooldown skill) = true ->
  CanUseSkill (UpdateCooldowns (UseSkill self id) (cooldown skill)) id
  = fle (manaCost skill) (fsub (currentMana self) (manaCost skill)).
Proof.
  intros F Hcan Vcd Hcd.
  assert (F' : first_with_id 0 (skills (UseSkill self id)) id
               = Some (i, reset_cooldown skill)).
  { rewrite UseSkill_first, Hcan, F. simpl.
    replace i with (i - 0) at 1 by lia.
    apply (first_with_id_insert _ id 0 i skill); [exact F|].
    simpl. apply (first_with_id_Some _ _ _ _ _ F). }
  rewrite (CanUseSkill_after_wait (UseSkill self id) id i (reset_cooldown skill));
    auto.
  - rewrite UseSkill_first, Hcan, F. reflexivity.
  - simpl. apply fle_refl. apply (fle_not_nan_r _ _ Hcd).
Qed.

Lemma use_wait_use_witness :
  let skill := mkSkill 7 (of_int 5) lit_0 (of_int 20) (of_int 40) true in
  let self := mk [skill] lit_100 lit_100 in
  CanUseSkill (UpdateCooldowns (UseSkill self 7) (of_int 5)) 7 = true.
Proof.
  cbv zeta.
  refine (eq_trans
            (use_wait_use
               (mk [mkSkill 7 (of_int 5) lit_0 (of_int 20) (of_int 40) true]
                   lit_100 lit_100) 7 0
               (mkSkill 7 (of_int 5) lit_0 (of_int 20) (of_int 40) true)
               eq_refl eq_refl eq_refl eq_refl) _).
  reflexivity.
Defined.

(** X22.  With non-negative arguments the two per-tick calls move each quantity
    one way only: no cooldownRemaining grows under [UpdateCooldowns] and
    currentMana does not shrink under [RegenerateMana]. *)
Theorem ticks_one_way (self : t) (regenRate deltaTime : float) :
  well_formed self = true -> invariant self = true ->
  fle lit_0 regenRate = true -> fle lit_0 deltaTime = true ->
  (forall i skill, skills self !! i = Some skill ->
     exists skill', skills (UpdateCooldowns self deltaTime) !! i = Some skill' /\
       fle (cooldownRemaining skill') (cooldownRemaining skill) = true) /\
  fle (currentMana self)
      (currentMana (RegenerateMana self regenRate deltaTime)) = true.
Proof.
  intros Hwf Hinv Hr Hd. unfold well_formed, invariant, mana_ok in *.
  apply andb_true_iff in Hwf as [Hwf Vmax]. apply andb_true_iff in Hwf as [Hwf Vm].
  apply andb_true_iff in Hinv as [Hinv Hmana].
  apply andb_true_iff in Hmana as [H0 Hmax].
  split.
  - intros i skill Hi. exists (tick_cooldown deltaTime skill). split.
    { simpl. change (map (tick_cooldown deltaTime))
               with (fmap (M:=list) (tick_cooldown deltaTime)).
      rewrite list_lookup_fmap, Hi. reflexivity. }
    pose proof (forallb_lookup _ _ _ _ Hwf Hi) as Wsk.
    pose proof (forallb_lookup _ _ _ _ Hinv Hi) as Osk.
    unfold skill_wf in Wsk. apply andb_true_iff in Wsk as [Wsk _].
    apply andb_true_iff in Wsk as [_ Vcr].
    unfold skill_ok in Osk. apply andb_true_iff in Osk as [Ocr _].
    simpl.
    destruct (std_max_cases lit_0 (fsub (cooldownRemaining skill) deltaTime))
      as [[Hp ->]|[_ ->]]; [apply fsub_le; assumption|exact Ocr].
  - simpl.
    destruct (std_min_cases (maxMana self)
                (fadd (currentMana self) (fmul regenRate deltaTime)))
      as [[Hlt ->]|[_ ->]]; [|exact Hmax].
    destruct (fmul_nonneg _ _ Hr Hd) as [N|P].
    + exfalso. destruct (fmul regenRate deltaTime); try discriminate.
      rewrite fadd_nan_r in Hlt. discriminate.
    + apply fadd_ge; assumption.
Qed.

Lemma ticks_one_way_witness :
  let skill := mkSkill 7 (of_int 5) (of_int 5) (of_int 20) (of_int 40) true in
  let self := mk [skill] (of_int 80) lit_100 in
  fle (currentMana self) (currentMana (RegenerateMana self (of_int 3) (of_int 2)))
    = true.
Proof.
  cbv zeta.
  apply (ticks_one_way
           (mk [mkSkill 7 (of_int 5) (of_int 5) (of_int 20) (of_int 40) true]
               (of_int 80) lit_100) (of_int 3) (of_int 2)); reflexivity.
Defined.

End SkillSystemMore.

(** ** MissionSystem: percentage and reward *)

Module MissionSystemMore.
Import MissionSystem Float32Facts Float32Rounding Float32Order.

Local Open Scope Z_scope.

(** X23.  A mission without targets is complete as soon as nothing negative has
    been counted, yet its completion percentage is 0. *)
Theorem no_targets_complete_at_zero (mission : Mission) :
  targetCount mission = 0 -> 0 <= targetsEliminated mission ->
  IsMissionComplete mission = true /\
  GetCompletionPercentage mission = lit_0.
Proof.
  intros Ht He. unfold IsMissionComplete, GetCompletionPercentage.
  rewrite Ht. split; [apply Z.geb_le; exact He|reflexivity].
Qed.

Lemma no_targets_complete_at_zero_witness :
  IsMissionComplete (mkMission 1 "m" lit_0 0 0 false lit_100) = true /\
  GetCompletionPercentage (mkMission 1 "m" lit_0 0 0 false lit_100) = lit_0.
Proof.
  apply (no_targets_complete_at_zero (mkMission 1 "m" lit_0 0 0 false lit_100));
    [reflexivity|simpl; lia].
Defined.

(** The quotient of a non-negative number by a positive number of the
    format is a non-negative number or an infinity, never a NaN. *)
Lemma fdiv_number (x y : float) :
  fle lit_0 x = true -> is_finite x = true ->
  flt lit_0 y = true -> is_finite y = true ->
  is_nan (fdiv x y) = false /\ fle lit_0 (fdiv x y) = true.
Proof.
  intros Hx Fx Hy Fy.
  assert (N : is_nan (fdiv x y) = false).
  { pose proof (nonneg_signed _ Hx) as Sx.
    pose proof (nonneg_signed _ (flt_fle _ _ Hy)) as Sy. unfold fdiv.
    destruct x as [sx|sx| |sx mx ex], y as [sy|sy| |sy my ey];
      simpl in Sx, Sy; subst; try discriminate; try reflexivity. simpl.
    unfold SFdiv_core_binary.
    set (m' := match _ with Zpos _ => Z.shiftl (Zpos mx) _ | Z0 => Zpos mx
                          | Zneg _ => 0 end).
    assert (0 <= m').
    { unfold m'. destruct (_ - _); try lia. apply Z.shiftl_nonneg. lia. }
    pose proof (Z_div_mod m' (Zpos my) ltac:(lia)) as Hdm.
    destruct (Z.div_eucl m' (Zpos my)) as [q r].
    apply binary_round_aux_not_nan. destruct Hdm as [Hq Hr]. nia. }
  split; [exact N|].
  destruct (fdiv_nonneg x y Hx Hy) as [C|P]; [congruence|exact P].
Qed.

Lemma fmul_number (x y : float) :
  fle lit_0 x = true -> fle lit_0 y = true -> is_finite y = true ->
  flt lit_0 y = true ->
  is_nan (fmul x y) = false /\ fle lit_0 (fmul x y) = true.
Proof.
  intros Hx Hy Fy Py.
  assert (N : is_nan (fmul x y) = false).
  { pose proof (nonneg_signed _ Hx) as Sx. unfold fmul.
    destruct x as [sx|sx| |sx mx ex], y as [sy|sy| |sy my ey];
      simpl in Sx; subst; try discriminate; try reflexivity;
      try (cbv in Py; discriminate).
    simpl. apply binary_round_aux_not_nan. lia. }
  split; [exact N|].
  destruct (fmul_nonneg x y Hx Hy) as [C|P]; [congruence|exact P].
Qed.

Lemma of_int_pos (n : Z) :
  1 <= n < 2 ^ 31 ->
  flt lit_0 (of_int n) = true /\ is_finite (of_int n) = true.
Proof.
  intros Hn. split; [|apply of_int_finite; lia].
  apply (flt_fle_trans lit_0 lit_1); [reflexivity|apply of_int_ge_1; lia].
Qed.

Lemma GetCompletionPercentage_number (mission : Mission) :
  0 <= targetsEliminated mission < 2 ^ 31 ->
  0 <= targetCount mission < 2 ^ 31 ->
  is_nan (GetCompletionPercentage mission) = false /\
  fle lit_0 (GetCompletionPercentage mission) = true.
Proof.
  intros He Ht. unfold GetCompletionPercentage.
  destruct (Z.eqb_spec (targetCount mission) 0) as [E|E]; [split; reflexivity|].
  destruct (of_int_pos (targetCount mission) ltac:(lia)) as [Pt Ft].
  destruct (fdiv_number (of_int (targetsEliminated mission))
              (of_int (targetCount mission))) as [Nq Pq]; auto.
  { apply of_int_nonneg; lia. }
  { apply of_int_finite; lia. }
  apply fmul_number; auto; reflexivity.
Qed.

(** X24.  For counters that are non-negative [int]s, the completion percentage is
    always a non-negative number or infinity and never a NaN, whether or
    not targetCount is 0. *)
Theorem GetCompletionPercentage_never_nan (mission : Mission) :
  0 <= targetsEliminated mission <= INT_MAX ->
  0 <= targetCount mission <= INT_MAX ->
  is_nan (GetCompletionPercentage mission) = false /\
  fle lit_0 (GetCompletionPercentage mission) = true.
Proof.
  unfold INT_MAX. intros He Ht.
  apply GetCompletionPercentage_number; change (2 ^ 31) with 2147483648; lia.
Qed.

Lemma GetCompletionPercentage_never_nan_witness :
  is_nan (GetCompletionPercentage (mkMission 1 "m" lit_0 7 3 false lit_100)) = false /\
  fle lit_0 (GetCompletionPercentage (mkMission 1 "m" lit_0 7 3 false lit_100)) = true.
Proof.
  apply (GetCompletionPercentage_never_nan (mkMission 1 "m" lit_0 7 3 false lit_100));
    unfold INT_MAX; simpl; lia.
Defined.

Lemma to_int_not_finite (x : float) : is_finite x = false -> to_int x = None.
Proof. destruct x; try discriminate; reflexivity. Qed.

Lemma fmul_not_finite_l (x y : float) :
  is_finite x = false -> is_finite y = true -> is_finite (fmul x y) = false.
Proof. destruct x, y; try discriminate; reflexivity. Qed.

Lemma fadd_not_finite_r (x y : float) :
  is_finite y = false -> is_finite (fadd x y) = false.
Proof.
  destruct x as [sx|sx| |sx mx ex], y as [sy|sy| |sy my ey]; try discriminate;
    try reflexivity; intros _; destruct sx, sy; reflexivity.
Qed.

(** X25.  [CalculateReward] divides by timeLimit without a guard: with timeLimit
    zero, or with a time that is not a number, the reward is not defined,
    whatever the mission's counters are. *)
Theorem CalculateReward_undefined (mission : Mission) (timeRemaining : float) :
  (forall s, timeLimit mission = S754_zero s ->
     CalculateReward mission timeRemaining = None) /\
  (is_finite timeRemaining = false ->
     CalculateReward mission timeRemaining = None) /\
  (is_nan (timeLimit mission) = true ->
     CalculateReward mission timeRemaining = None).
Proof.
  assert (H : is_finite (fdiv timeRemaining (timeLimit mission)) = false ->
              CalculateReward mission timeRemaining = None).
  { intros F. unfold CalculateReward. apply to_int_not_finite.
    apply fadd_not_finite_r. apply fmul_not_finite_l; [exact F|reflexivity]. }
  split; [|split].
  - intros s E. apply H. rewrite E. destruct timeRemaining; reflexivity.
  - intros F. apply H.
    destruct timeRemaining as [a|a| |a ma ea]; try discriminate;
      destruct (timeLimit mission) as [b|b| |b mb eb]; reflexivity.
  - intros N. apply H. destruct (timeLimit mission); try discriminate.
    destruct timeRemaining; reflexivity.
Qed.

Lemma CalculateReward_undefined_witness :
  CalculateReward (mkMission 1 "m" lit_0 10 10 false lit_0) (of_int 30) = None.
Proof.
  apply (proj1 (CalculateReward_undefined
                  (mkMission 1 "m" lit_0 10 10 false lit_0) (of_int 30)) false).
  reflexivity.
Defined.

(** A defined conversion of a value that is at least 1000 is the
    truncation of a positive finite value. *)
Lemma to_int_Some_value (y : float) (v : Z) :
  to_int y = Some v -> fle (of_int 1000) y = true ->
  exists m e, y = S754_finite false m e /\ v = Z.shiftl (Zpos m) e.
Proof.
  unfold to_int. intros Hv Hle.
  destruct y as [s|s| |s m e]; try discriminate.
  destruct s; try discriminate. simpl in Hv.
  destruct (_ && _) in Hv; [|discriminate]. injection Hv as <-. eauto.
Qed.

(** The sum of a finite non-zero value of the format and anything is a
    value of the format. *)
Lemma fadd_finite_l_valid (s : bool) (m : positive) (e : Z) (y : float) :
  is_float (S754_finite s m e) -> is_float (fadd (S754_finite s m e) y).
Proof.
  unfold is_float, fadd. intros V.
  destruct y as [sy|sy| |sy my ey]; simpl; try reflexivity; try exact V.
  apply binary_normalize_valid.
Qed.

(** Truncation keeps a value of the format that is at least 1000 at or
    above 1000. *)
Lemma to_int_ge_1000 (y : float) (v : Z) :
  is_float y -> fle (of_int 1000) y = true -> to_int y = Some v -> 1000 <= v.
Proof.
  intros V Hle Hv. destruct (to_int_Some_value y v Hv Hle) as [m [e [-> ->]]].
  change (of_int 1000) with (S754_finite false 16384000 (-14)) in Hle.
  pose proof (fle_finite_value 16384000 m (-14) e eq_refl V Hle) as Hval.
  assert (e < -14 \/ -14 <= e < 0 \/ 0 <= e) as [C|[C|C]] by lia.
  - replace (Z.min (-14) e) with e in Hval by lia. rewrite Z.sub_diag in Hval.
    simpl (2 ^ 0) in Hval. rewrite Z.shiftl_div_pow2 by lia.
    apply Z.div_le_lower_bound; [apply Z.pow_pos_nonneg; lia|].
    replace (- e) with (14 + (-14 - e)) by lia. rewrite Z.pow_add_r by lia.
    change (2 ^ 14) with 16384. lia.
  - replace (Z.min (-14) e) with (-14) in Hval by lia. rewrite Z.sub_diag in Hval.
    simpl (2 ^ 0) in Hval. rewrite Z.shiftl_div_pow2 by lia.
    apply Z.div_le_lower_bound; [apply Z.pow_pos_nonneg; lia|].
    assert (E : 2 ^ 14 = 2 ^ (- e) * 2 ^ (e - -14)).
    { rewrite <- Z.pow_add_r by lia. f_equal. lia. }
    change (2 ^ 14) with 16384 in E.
    assert (0 < 2 ^ (e - -14)) by (apply Z.pow_pos_nonneg; lia).
    nia.
  - replace (Z.min (-14) e) with (-14) in Hval by lia. rewrite Z.sub_diag in Hval.
    simpl (2 ^ 0) in Hval. rewrite Z.shiftl_mul_pow2 by lia.
    replace (e - -14) with (e + 14) in Hval by lia.
    rewrite Z.pow_add_r in Hval by lia. change (2 ^ 14) with 16384 in Hval.
    lia.
Qed.

(** X26.  With non-negative counters, a non-negative time and a positive time
    limit, a reward that is defined is at least the base reward 1000. *)
Theorem CalculateReward_at_least_base (mission : Mission)
    (timeRemaining : float) (reward : Z) :
  0 <= targetsEliminated mission <= INT_MAX ->
  0 <= targetCount mission <= INT_MAX ->
  fle lit_0 timeRemaining = true -> flt lit_0 (timeLimit mission) = true ->
  CalculateReward mission timeRemaining = Some reward ->
  1000 <= reward.
Proof.
  unfold INT_MAX. intros He Ht Hr Hl. unfold CalculateReward.
  destruct (GetCompletionPercentage_number mission) as [Ng Pg];
    [change (2 ^ 31) with 2147483648; lia..|].
  destruct (fmul_number (GetCompletionPercentage mission) (of_int 10))
    as [Nc Pc]; auto; try reflexivity.
  set (cb := fmul (GetCompletionPercentage mission) (of_int 10)) in *.
  set (tb := fmul (fdiv timeRemaining (timeLimit mission)) (of_int 500)).
  assert (Htb : is_nan tb = true \/ fle lit_0 tb = true).
  { destruct (fdiv_nonneg _ _ Hr Hl) as [N|P].
    - left. unfold tb. destruct (fdiv _ _); try discriminate. reflexivity.
    - apply fmul_nonneg; [exact P|reflexivity]. }
  clearbody cb tb.
  assert (H1 : fle (of_int 1000) (fadd (of_int 1000) cb) = true)
    by (apply fadd_ge; [reflexivity|reflexivity|exact Pc]).
  assert (V1 : is_float (fadd (of_int 1000) cb))
    by (apply (fadd_finite_l_valid false 16384000 (-14)); reflexivity).
  set (x1 := fadd (of_int 1000) cb) in *. clearbody x1.
  intros Hv. destruct Htb as [N|Ptb].
  { destruct tb; try discriminate. rewrite fadd_nan_r in Hv. discriminate. }
  assert (P1 : fle lit_0 x1 = true)
    by (apply (fle_trans _ (of_int 1000)); [reflexivity|exact H1]).
  pose proof (fadd_ge x1 tb V1 P1 Ptb) as H2.
  apply (to_int_ge_1000 (fadd x1 tb)); [|apply (fle_trans _ x1); assumption|exact Hv].
  destruct x1 as [s1|s1| |s1 m1 e1].
  - cbv in H1. discriminate H1.
  - exfalso. destruct s1; [cbv in H1; discriminate H1|].
    destruct tb as [st|st| |st mt et]; try destruct st; cbv in Hv;
      discriminate Hv.
  - cbv in H1. discriminate H1.
  - apply fadd_finite_l_valid. exact V1.
Qed.

Lemma CalculateReward_at_least_base_witness :
  CalculateReward (mkMission 1 "m" lit_0 10 10 false (of_int 60)) (of_int 30)
    = Some 2250 /\ 1000 <= 2250.
Proof.
  split; [vm_compute; reflexivity|].
  apply (CalculateReward_at_least_base
           (mkMission 1 "m" lit_0 10 10 false (of_int 60)) (of_int 30) 2250);
    try (unfold INT_MAX; simpl; lia); vm_compute; reflexivity.
Defined.

End MissionSystemMore.
